(** * fs-os kernel: interrupt descriptor table and task-list diagnostics

    A shallow embedding of [src/kernel/idt.c] (with the constants and
    types of [include/kernel/idt.h]) and of [src/kernel/multitask.c],
    followed by the properties of the interrupt core that the
    specification states about them; and of [src/kernel/framebuffer.c],
    of get_font_bit in [include/kernel/font.h] and of format_date in
    [src/kernel/kernel.c], with properties read off that code.

    Machine integers are [Z] with the C conversions written out; the
    kernel's global variables form a record that is threaded through a
    small state/error monad which also collects the hardware-visible
    actions of a run, in program order. *)

From Stdlib Require Import ZArith Lia.
From stdpp Require Import base list strings gmap.

Local Open Scope Z_scope.

(** ** Fixed-width unsigned integers *)

Definition u8 (z : Z) : Z := z mod 2 ^ 8.
Definition u16 (z : Z) : Z := z mod 2 ^ 16.
Definition u32 (z : Z) : Z := z mod 2 ^ 32.

(** ** include/kernel/idt.h *)

Definition P_BIT : Z := Z.shiftl 1 7.
Definition DPL_NONE : Z := 0.

(* enum idt_gate_types *)
Definition IDT_GATE_TASK : Z := 0x5.
Definition IDT_GATE_16BIT_INT : Z := 0x6.
Definition IDT_GATE_16BIT_TRAP : Z := 0x7.
Definition IDT_GATE_32BIT_INT : Z := 0xE.
Definition IDT_GATE_32BIT_TRAP : Z := 0xF.

(* enum pic_ports *)
Definition PIC_MASTER_CMD : Z := 0x20.
Definition PIC_MASTER_DATA : Z := 0x21.
Definition PIC_SLAVE_CMD : Z := 0xA0.
Definition PIC_SLAVE_DATA : Z := 0xA1.

(* enum pic_flags *)
Definition ICW1_ICW4 : Z := 0x01.
Definition ICW1_SINGLE : Z := 0x02.
Definition ICW1_INTERVAL4 : Z := 0x04.
Definition ICW1_LEVEL : Z := 0x08.
Definition ICW1_INIT : Z := 0x10.
Definition ICW4_8086 : Z := 0x01.
Definition ICW4_AUTO : Z := 0x02.
Definition ICW4_BUF_SLAVE : Z := 0x08.
Definition ICW4_BUF_MASTER : Z := 0x0C.
Definition ICW4_SFNM : Z := 0x10.

(* typedef struct { ... } __attribute__((packed)) idt_entry; *)
Record idt_entry : Type := mk_idt_entry {
  offset_l : Z;   (* uint16_t *)
  selector : Z;   (* uint16_t *)
  zero : Z;       (* uint8_t *)
  type : Z;       (* uint8_t *)
  offset_h : Z    (* uint16_t *)
}.

(* sizeof(idt_entry): the struct is packed, 2 + 2 + 1 + 1 + 2 bytes *)
Definition sizeof_idt_entry : Z := 8.

(* typedef struct { ... } __attribute__((packed)) idt_descriptor; *)
Record idt_descriptor : Type := mk_idt_descriptor {
  limit : Z;      (* uint16_t *)
  base : Z        (* idt_entry*, a 32-bit address *)
}.

(** ** Kernel state and actions *)

Definition IDT_SZ : Z := 256.

(* The all-zero entry of the initializer [= { 0 }]. *)
Definition zero_entry : idt_entry :=
  {| offset_l := 0; selector := 0; zero := 0; type := 0; offset_h := 0 |}.

(* The globals of idt.c, and the two pieces of CPU state idt_init sets:
   the IDT register (loaded by lidt) and the interrupt flag (set by sti). *)
Record machine : Type := mk_machine {
  idt : list idt_entry;            (* idt_entry idt[IDT_SZ] *)
  descriptor : idt_descriptor;     (* idt_descriptor descriptor *)
  idtr : option idt_descriptor;    (* None until idt_load runs *)
  iflag : bool                     (* interrupts enabled? *)
}.

(* State of the globals when the kernel image is loaded. *)
Definition boot : machine :=
  {| idt := replicate (Z.to_nat IDT_SZ) zero_entry;
     descriptor := {| limit := 0; base := 0 |};
     idtr := None;
     iflag := false |}.

(* The table has the length of its declaration. *)
Definition wf (s : machine) : Prop := length (idt s) = Z.to_nat IDT_SZ.

(* What a run does, in program order. *)
Inductive event : Type :=
| EOutb (port value : Z)               (* io_outb(port, value) *)
| EIdtStore (idx : Z) (e : idt_entry)  (* idt[idx] = e *)
| EDescLimit (v : Z)                   (* descriptor.limit = v *)
| EDescBase (a : Z)                    (* descriptor.base = a *)
| ELidt (d : idt_descriptor)           (* idt_load(&descriptor) *)
| ESti.                                (* asm("sti") *)

Inductive outcome (A : Type) : Type :=
| Done (a : A) (s : machine) (t : list event)  (* returned normally *)
| Halted (msg : string) (s : machine) (t : list event)  (* panic *)
| Undefined (s : machine) (t : list event).    (* out-of-bounds store *)
Arguments Done {A} a s t.
Arguments Halted {A} msg s t.
Arguments Undefined {A} s t.

Definition kernel (A : Type) : Type := machine -> outcome A.

(* The monad of kernel code: [mret], [x ← m; k] and [m ;; k]. *)
Global Instance kernel_ret : MRet kernel := λ A a s, Done a s [].

(* Prefix an outcome with the actions that came before it. *)
Definition after {A} (t : list event) (o : outcome A) : outcome A :=
  match o with
  | Done a s t' => Done a s (t ++ t')
  | Halted msg s t' => Halted msg s (t ++ t')
  | Undefined s t' => Undefined s (t ++ t')
  end.

Global Instance kernel_bind : MBind kernel := λ A B k m s,
  match m s with
  | Done a s' t => after t (k a s')
  | Halted msg s' t => Halted msg s' t
  | Undefined s' t => Undefined s' t
  end.

(* for (int i = lo; i < hi; i++) body(i); *)
Fixpoint for_loop (n : nat) (i : Z) (body : Z -> kernel unit) : kernel unit :=
  match n with
  | O => mret tt
  | S n' => body i ;; for_loop n' (i + 1) body
  end.

Definition for_range (lo hi : Z) (body : Z -> kernel unit) : kernel unit :=
  for_loop (Z.to_nat (hi - lo)) lo body.

(** ** Primitives used by idt.c *)

(** Modelled from the spec: [panic_line] (declared in kernel/exceptions.h,
    which is not among the sources) reports a fatal configuration error;
    it is non-recoverable and halts initialization, so control never
    comes back to the caller. *)
Definition panic_line {A} (msg : string) : kernel A :=
  fun s => Halted msg s [].

(** Modelled from the spec: [io_outb] (kernel/io.h, not among the
    sources) is the port-write primitive: one byte written to one I/O
    port, with no effect on the kernel's memory. *)
Definition io_outb (port value : Z) : kernel unit :=
  fun s => Done tt s [EOutb (u16 port) (u8 value)].

(* The state with another table, everything else as it was. *)
Definition with_idt (l : list idt_entry) (s : machine) : machine :=
  {| idt := l; descriptor := descriptor s; idtr := idtr s; iflag := iflag s |}.

(* idt[idx] = e; a store outside the array is undefined behaviour. *)
Definition idt_store (idx : Z) (e : idt_entry) : kernel unit :=
  fun s =>
    if decide (0 <= idx /\ (Z.to_nat idx < length (idt s))%nat) then
      Done tt (with_idt (<[Z.to_nat idx := e]> (idt s)) s) [EIdtStore idx e]
    else Undefined s [].

(* descriptor.limit = v *)
Definition descriptor_set_limit (v : Z) : kernel unit :=
  fun s =>
    Done tt
      {| idt := idt s;
         descriptor := {| limit := u16 v; base := base (descriptor s) |};
         idtr := idtr s; iflag := iflag s |}
      [EDescLimit (u16 v)].

(* descriptor.base = a *)
Definition descriptor_set_base (a : Z) : kernel unit :=
  fun s =>
    Done tt
      {| idt := idt s;
         descriptor := {| limit := limit (descriptor s); base := a |};
         idtr := idtr s; iflag := iflag s |}
      [EDescBase a].

(** Modelled from the spec: [idt_load] (idt.asm, not among the sources)
    is the privileged load instruction (lidt) that hands the CPU the
    descriptor's {limit, base} pair as it is at that moment. *)
Definition idt_load : kernel unit :=
  fun s =>
    Done tt
      {| idt := idt s; descriptor := descriptor s;
         idtr := Some (descriptor s); iflag := iflag s |}
      [ELidt (descriptor s)].

(* asm("sti") *)
Definition sti : kernel unit :=
  fun s =>
    Done tt
      {| idt := idt s; descriptor := descriptor s;
         idtr := idtr s; iflag := true |}
      [ESti].

(** ** The interrupt controllers, as seen through their ports *)

(** Modelled from the spec: the two chained interrupt controllers are
    hardware, not code of the kernel. Each is told, through a command
    port and a data port, to enter initialization mode (ICW1), which
    vector numbers to raise (ICW2), how it is cascaded (ICW3) and in which
    mode to run (ICW4); once initialized, a write to the data port sets
    the interrupt mask. *)
Module PIC.

Inductive phase : Type := Operating | ExpectICW2 | ExpectICW3 | ExpectICW4.

Record chip : Type := mk_chip {
  stage : phase;
  icw1 : Z;          (* the word that started the current handshake *)
  vector_base : Z;   (* vector raised for line 0 *)
  cascade : Z;       (* ICW3 *)
  mode : Z;          (* ICW4 *)
  imr : Z            (* interrupt mask register: bit k masks line k *)
}.

(* A write to the command port: a word with bit 4 set is ICW1 and
   restarts the handshake (clearing the mask); other command words
   (OCW2, OCW3) do not touch the configuration. *)
Definition command (v : Z) (c : chip) : chip :=
  if Z.testbit v 4 then
    {| stage := ExpectICW2; icw1 := v; vector_base := vector_base c;
       cascade := cascade c; mode := 0; imr := 0 |}
  else c.

Definition after_icw3 (c : chip) : phase :=
  if Z.testbit (icw1 c) 0 then ExpectICW4 else Operating.

Definition after_icw2 (c : chip) : phase :=
  if Z.testbit (icw1 c) 1 then after_icw3 c else ExpectICW3.

(* A write to the data port: the next word of the handshake, or the
   interrupt mask when no handshake is in progress. *)
Definition data (v : Z) (c : chip) : chip :=
  match stage c with
  | ExpectICW2 =>
      {| stage := after_icw2 c; icw1 := icw1 c;
         vector_base := Z.land v 0xF8;
         cascade := cascade c; mode := mode c; imr := imr c |}
  | ExpectICW3 =>
      {| stage := after_icw3 c; icw1 := icw1 c;
         vector_base := vector_base c;
         cascade := v; mode := mode c; imr := imr c |}
  | ExpectICW4 =>
      {| stage := Operating; icw1 := icw1 c;
         vector_base := vector_base c;
         cascade := cascade c; mode := v; imr := imr c |}
  | Operating =>
      {| stage := Operating; icw1 := icw1 c;
         vector_base := vector_base c;
         cascade := cascade c; mode := mode c; imr := v |}
  end.

Record pair : Type := mk_pair { master : chip; slave : chip }.

Definition outb (port v : Z) (p : pair) : pair :=
  if decide (port = PIC_MASTER_CMD) then
    {| master := command v (master p); slave := slave p |}
  else if decide (port = PIC_MASTER_DATA) then
    {| master := data v (master p); slave := slave p |}
  else if decide (port = PIC_SLAVE_CMD) then
    {| master := master p; slave := command v (slave p) |}
  else if decide (port = PIC_SLAVE_DATA) then
    {| master := master p; slave := data v (slave p) |}
  else p.

Definition step (p : pair) (e : event) : pair :=
  match e with
  | EOutb port v => outb port v p
  | _ => p
  end.

(* The controllers after the port writes of a run. *)
Definition replay (t : list event) (p : pair) : pair := foldl step p t.

(* The vector a controller raises for one of its eight lines. *)
Definition vector (c : chip) (line : Z) : Z := vector_base c + line.

Definition masked (c : chip) (line : Z) : bool := Z.testbit (imr c) line.

End PIC.

(** ** src/kernel/idt.c *)

(* The compound literal stored by register_isr. *)
Definition gate (func : Z) : idt_entry :=
  {| selector := u16 0x8;
     offset_l := u16 (Z.land (u32 func) 0xFFFF);
     offset_h := u16 (Z.land (Z.shiftr (u32 func) 16) 0xFFFF);
     type := u8 (Z.lor (Z.lor P_BIT DPL_NONE) IDT_GATE_32BIT_INT);
     zero := u8 0 |}.

(* static void register_isr(uint16_t idx, uint32_t func): the arguments
   are converted to the parameter types on entry. *)
Definition register_isr (idx func : Z) : kernel unit :=
  let idx := u16 idx in
  let func := u32 func in
  (if decide (idx >= IDT_SZ)
   then panic_line "Idx out of bounds when registering ISR."
   else mret tt) ;;
  idt_store idx (gate func).

(* static inline void pic_remap(void) *)
Definition pic_remap : kernel unit :=
  io_outb PIC_MASTER_CMD (Z.lor ICW1_INIT ICW1_ICW4) ;;
  io_outb PIC_SLAVE_CMD (Z.lor ICW1_INIT ICW1_ICW4) ;;
  io_outb PIC_MASTER_DATA 32 ;;
  io_outb PIC_SLAVE_DATA 40 ;;
  io_outb PIC_MASTER_DATA 4 ;;
  io_outb PIC_SLAVE_DATA 2 ;;
  io_outb PIC_MASTER_DATA ICW4_8086 ;;
  io_outb PIC_SLAVE_DATA ICW4_8086 ;;
  io_outb PIC_MASTER_DATA 0 ;;
  io_outb PIC_SLAVE_DATA 0.

(* One registration as a table update and as an action. *)
Definition assign (l : list idt_entry) (r : Z * Z) : list idt_entry :=
  <[Z.to_nat r.1 := gate r.2]> l.

Definition store_event (r : Z * Z) : event := EIdtStore r.1 (gate r.2).

(* The port writes of pic_remap, in order: the four-word handshake of
   both controllers, then the two mask words. *)
Definition pic_handshake : list event :=
  [EOutb 0x20 0x11; EOutb 0xA0 0x11;
   EOutb 0x21 32; EOutb 0xA1 40;
   EOutb 0x21 4; EOutb 0xA1 2;
   EOutb 0x21 1; EOutb 0xA1 1].

Definition pic_masks : list event := [EOutb 0x21 0; EOutb 0xA1 0].

(* Kinds of action, and "every [p] action comes before every [q] action". *)
Definition is_outb (e : event) : bool :=
  match e with EOutb _ _ => true | _ => false end.
Definition is_idt_store (e : event) : bool :=
  match e with EIdtStore _ _ => true | _ => false end.
Definition is_lidt (e : event) : bool :=
  match e with ELidt _ => true | _ => false end.
Definition is_sti (e : event) : bool :=
  match e with ESti => true | _ => false end.

Definition all_before (p q : event -> bool) (t : list event) : Prop :=
  forall (i j : nat) (a b : event),
    t !! i = Some a -> t !! j = Some b -> p a = true -> q b = true ->
    (i < j)%nat.

Fixpoint all_beforeb (p q : event -> bool) (t : list event) : bool :=
  match t with
  | [] => true
  | e :: t' =>
      (if q e then negb (p e) && forallb (fun x => negb (p x)) t' else true)
      && all_beforeb p q t'
  end.

(* The handler a sequence of registrations leaves at table index [n]:
   that of the last registration of [n], if there is one. *)
Definition last_assignment (rs : list (Z * Z)) (n : nat) : option Z :=
  foldl (fun acc r => if decide (Z.to_nat r.1 = n) then Some r.2 else acc)
        None rs.

(* The entry [e] is a present 32-bit interrupt gate of the kernel code
   segment whose two offset halves are those of the 32-bit address of
   [h]: a CPU reading it transfers control to [h]. *)
Definition interrupt_gate_to (e : idt_entry) (h : Z) : Prop :=
  Z.testbit (type e) 7 = true /\
  type e = 0x8E /\
  selector e = 0x8 /\
  zero e = 0 /\
  0 <= offset_l e < 2 ^ 16 /\
  0 <= offset_h e < 2 ^ 16 /\
  offset_h e * 2 ^ 16 + offset_l e = u32 h.

(* Vector [v] of the table holds such a gate. *)
Definition vector_gate (s : machine) (v h : Z) : Prop :=
  exists e, idt s !! Z.to_nat v = Some e /\ interrupt_gate_to e h.

(* The eight vectors of a controller, by line. *)
Definition pic_vectors (c : PIC.chip) : list Z :=
  PIC.vector c <$> seqZ 0 8.

Definition pic_line_masks (c : PIC.chip) : list bool :=
  PIC.masked c <$> seqZ 0 8.

(* A link map to run the code on. *)
Definition sample_idt_addr : Z := 0x00108000.
Definition sample_exc (n : Z) : Z := 0x00101000 + 0x10 * n.
Definition sample_irq_pit : Z := 0x00101400.
Definition sample_irq_kb : Z := 0x00101410.
Definition sample_irq_default_master : Z := 0x00101420.
Definition sample_irq_default_slave : Z := 0x00101430.

Section IdtInit.

(* Link-time addresses: of the table, of the exception entry points
   exc_0 .. exc_30 and of the IRQ entry points (all in idt.asm). *)
Variable idt_addr : Z.
Variable exc : Z -> Z.
Variables irq_pit irq_kb irq_default_master irq_default_slave : Z.

(* void idt_init(void) *)
Definition idt_init : kernel unit :=
  descriptor_set_limit (IDT_SZ * sizeof_idt_entry - 1) ;;
  descriptor_set_base idt_addr ;;
  pic_remap ;;
  register_isr 0 (exc 0) ;;
  register_isr 1 (exc 1) ;;
  register_isr 2 (exc 2) ;;
  register_isr 3 (exc 3) ;;
  register_isr 4 (exc 4) ;;
  register_isr 5 (exc 5) ;;
  register_isr 6 (exc 6) ;;
  register_isr 7 (exc 7) ;;
  register_isr 8 (exc 8) ;;
  register_isr 10 (exc 10) ;;
  register_isr 11 (exc 11) ;;
  register_isr 12 (exc 12) ;;
  register_isr 13 (exc 13) ;;
  register_isr 14 (exc 14) ;;
  register_isr 15 (exc 15) ;;
  register_isr 16 (exc 16) ;;
  register_isr 17 (exc 17) ;;
  register_isr 18 (exc 18) ;;
  register_isr 19 (exc 19) ;;
  register_isr 20 (exc 20) ;;
  register_isr 30 (exc 30) ;;
  register_isr 32 irq_pit ;;
  register_isr 33 irq_kb ;;
  for_range 34 40 (fun i => register_isr i irq_default_master) ;;
  for_range 40 48 (fun i => register_isr i irq_default_slave) ;;
  idt_load ;;
  sti.

(* The calls of register_isr made by idt_init, in order. *)
Definition registrations : list (Z * Z) :=
  ((fun n => (n, exc n)) <$>
     [0; 1; 2; 3; 4; 5; 6; 7; 8; 10; 11; 12; 13; 14; 15; 16; 17; 18; 19; 20; 30])
  ++ [(32, irq_pit); (33, irq_kb)]
  ++ ((fun n => (n, irq_default_master)) <$> seqZ 34 6)
  ++ ((fun n => (n, irq_default_slave)) <$> seqZ 40 8).

(* The state idt_init returns in, and the actions it performs. *)
Definition idt_init_final (s : machine) : machine :=
  {| idt := foldl assign (idt s) registrations;
     descriptor := {| limit := 2047; base := idt_addr |};
     idtr := Some {| limit := 2047; base := idt_addr |};
     iflag := true |}.

Definition idt_init_trace : list event :=
  [EDescLimit 2047; EDescBase idt_addr]
  ++ pic_handshake ++ pic_masks
  ++ (store_event <$> registrations)
  ++ [ELidt {| limit := 2047; base := idt_addr |}; ESti].

(* The published vector assignment table: the handler of a vector
   number, if the table gives it one. *)
Definition vector_assignment (v : Z) : option Z :=
  if decide (0 <= v <= 8 \/ 10 <= v <= 20 \/ v = 30) then Some (exc v)
  else if decide (v = 32) then Some irq_pit
  else if decide (v = 33) then Some irq_kb
  else if decide (34 <= v <= 39) then Some irq_default_master
  else if decide (40 <= v <= 47) then Some irq_default_slave
  else None.

End IdtInit.

(** ** src/kernel/multitask.c *)

Module Multitask.

(* Ctx (kernel/multitask.h): the fields dump_task_list reads. Pointers
   are addresses. *)
Record Ctx : Type := mk_Ctx {
  name : string;
  prev : Z;
  next : Z;
  stack : Z;
  esp : Z;
  cr3 : Z;
  state : Z
}.

(* What goes to the console: the header, and one printf per line with
   the arguments it is given. *)
Inductive output : Type :=
| Puts (s : string)
| Printf (i : Z) (name : string) (prev next stack esp cr3 state : Z).

(* printf("[%d] %s | prev: %p | next: %p | ...", i, c->name, ...) *)
Definition line (i : Z) (c : Ctx) : output :=
  Printf i (name c) (prev c) (next c) (stack c) (esp c) (cr3 c) (state c).

Inductive result : Type :=
| Printed (out : list output)   (* the function returned *)
| Fault                         (* a pointer that is no task was read *)
| OutOfFuel.                    (* the loop was cut off *)

Definition emit (o : output) (r : result) : result :=
  match r with
  | Printed out => Printed (o :: out)
  | Fault => Fault
  | OutOfFuel => OutOfFuel
  end.

(* for (Ctx* cur_ctx = mt_current_task; cur_ctx->next != first_ctx;
        cur_ctx = cur_ctx->next, i++) printf(..., i, cur_ctx->...);
   entered with the current values of cur_ctx and i. *)
Fixpoint dump_loop (fuel : nat) (mem : gmap Z Ctx)
    (first_ctx cur_ctx i : Z) : result :=
  match fuel with
  | O => OutOfFuel
  | S fuel' =>
      match mem !! cur_ctx with
      | None => Fault
      | Some c =>
          if decide (next c ≠ first_ctx) then
            emit (line i c) (dump_loop fuel' mem first_ctx (next c) (i + 1))
          else Printed []
      end
  end.

(* void dump_task_list(void), reading the tasks in [mem] *)
Definition dump_task_list (fuel : nat) (mem : gmap Z Ctx)
    (mt_current_task : Z) : result :=
  emit (Puts "Dumping task list:")
    (let i := 0 in
     let first_ctx := mt_current_task in
     match mem !! first_ctx with
     | None => Fault
     | Some c =>
         emit (line i c)
           (dump_loop fuel mem first_ctx mt_current_task (i + 1))
     end).

(* The live tasks, each with its address, in [next] order: distinct
   addresses, every task stored at its address, and each task's [next]
   and [prev] leading to its neighbours, the last wrapping to the first. *)
Definition neighbour (tasks : list (Z * Ctx)) (k : nat) : option Z :=
  fst <$> tasks !! (k mod length tasks)%nat.

Record circular (mem : gmap Z Ctx) (tasks : list (Z * Ctx)) : Prop := {
  circ_nodup : NoDup (fst <$> tasks);
  circ_mem : forall k a c, tasks !! k = Some (a, c) -> mem !! a = Some c;
  circ_next : forall k a c,
    tasks !! k = Some (a, c) -> neighbour tasks (S k) = Some (next c);
  circ_prev : forall k a c,
    tasks !! (S k mod length tasks)%nat = Some (a, c) ->
    (k < length tasks)%nat -> neighbour tasks k = Some (prev c)
}.

(* Lines numbered from [i], one per context. *)
Fixpoint number_lines (i : Z) (cs : list Ctx) : list output :=
  match cs with
  | [] => []
  | c :: cs' => line i c :: number_lines (i + 1) cs'
  end.

(* The task names on the lines of an output, in order. *)
Definition printed_names (out : list output) : list string :=
  omap (fun o => match o with
                 | Puts _ => None
                 | Printf _ n _ _ _ _ _ _ => Some n
                 end) out.

(* Two tasks to run the code on: the idle task and a shell, each the
   other's neighbour. *)
Definition idle : Ctx :=
  {| name := "idle"; prev := 0x2000; next := 0x2000;
     stack := 0x9000; esp := 0x8FE0; cr3 := 0x100000; state := 0 |}.

Definition shell : Ctx :=
  {| name := "shell"; prev := 0x1000; next := 0x1000;
     stack := 0xB000; esp := 0xAFC0; cr3 := 0x100000; state := 0 |}.

Definition two_tasks : list (Z * Ctx) := [(0x1000, idle); (0x2000, shell)].

Definition two_tasks_mem : gmap Z Ctx :=
  <[0x1000 := idle]> (<[0x2000 := shell]> ∅).

End Multitask.


(** ** src/kernel/framebuffer.c *)

Module Framebuffer.

(* The globals of framebuffer.c, and the rest of memory as the 32-bit
   cells the file accesses, each keyed by its 32-bit address: the cell
   [p[i]] of a uint32_t pointer [p] is the one at [p + 4 * i], taken
   modulo 2^32 as the machine's address arithmetic does. The globals
   themselves are kept apart from [mem]: the frame buffer is taken not
   to lie over them. *)
Record fb_state : Type := mk_fb_state {
  g_fb : Z;       (* static uint32_t* g_fb *)
  g_pitch : Z;    (* static uint32_t g_pitch *)
  g_width : Z;    (* static uint32_t g_width *)
  g_height : Z;   (* static uint32_t g_height *)
  g_bpp : Z;      (* static uint32_t g_bpp *)
  mem : gmap Z Z
}.

(* g_fb[i] = v *)
Definition store (i v : Z) (s : fb_state) : fb_state :=
  {| g_fb := g_fb s; g_pitch := g_pitch s; g_width := g_width s;
     g_height := g_height s; g_bpp := g_bpp s;
     mem := <[u32 (g_fb s + 4 * i) := v]> (mem s) |}.

(* for (uint32_t cur = lo; cur < hi; cur++) body(cur); the counter stays
   below [hi], itself a uint32_t, so the increment never wraps. *)
Fixpoint loop (n : nat) (i : Z) (body : Z -> fb_state -> fb_state)
    (s : fb_state) : fb_state :=
  match n with
  | O => s
  | S n' => loop n' (i + 1) body (body i s)
  end.

Definition for_u32 (lo hi : Z) (body : Z -> fb_state -> fb_state)
    (s : fb_state) : fb_state :=
  loop (Z.to_nat (hi - lo)) lo body s.

(* void fb_init(uint32_t* fb, uint32_t pitch, uint32_t w, uint32_t h,
                uint32_t bpp) *)
Definition fb_init (fb pitch w h bpp : Z) (s : fb_state) : fb_state :=
  let fb := u32 fb in
  let pitch := u32 pitch in
  let w := u32 w in
  let h := u32 h in
  let bpp := u32 bpp in
  let s := {| g_fb := fb; g_pitch := pitch; g_width := w; g_height := h;
              g_bpp := bpp; mem := mem s |} in
  for_u32 0 h (fun y =>
    for_u32 0 w (fun x s' => store (u32 (y * w + x)) 0x000000 s')) s.




(* void fb_setpx_col(uint32_t y, uint32_t x, uint32_t col) *)
Definition fb_setpx_col (y x col : Z) (s : fb_state) : fb_state :=
  let y := u32 y in
  let x := u32 x in
  let col := u32 col in
  if decide (y >= g_height s \/ x >= g_width s) then s
  else store (u32 (y * g_width s + x)) col s.

(* void fb_drawrect_col(uint32_t y, uint32_t x, uint32_t h, uint32_t w,
                        uint32_t col) *)
Definition fb_drawrect_col (y x h w col : Z) (s : fb_state) : fb_state :=
  let y := u32 y in
  let x := u32 x in
  let h := u32 h in
  let w := u32 w in
  let col := u32 col in
  if decide (y >= g_height s \/ x >= g_width s) then s
  else
    let h := if decide (u32 (y + h) >= g_height s)
             then u32 (u32 (g_height s - y) - 1) else h in
    let w := if decide (u32 (x + w) >= g_width s)
             then u32 (u32 (g_width s - x) - 1) else w in
    for_u32 y (u32 (y + h)) (fun cur_y =>
      for_u32 x (u32 (x + w)) (fun cur_x s' =>
        store (u32 (cur_y * g_width s' + cur_x)) col s')) s.

(* void fb_drawrect_fast(uint32_t y, uint32_t x, uint32_t h, uint32_t w,
                         uint32_t col) *)
Definition fb_drawrect_fast (y x h w col : Z) (s : fb_state) : fb_state :=
  let y := u32 y in
  let x := u32 x in
  let h := u32 h in
  let w := u32 w in
  let col := u32 col in
  for_u32 y (u32 (y + h)) (fun cur_y =>
    for_u32 x (u32 (x + w)) (fun cur_x s' =>
      store (u32 (cur_y * g_width s' + cur_x)) col s')) s.

(* The address of the cell of pixel (y, x), and what a reader of
   fb_get_ptr()[y * fb_get_width() + x] finds there. *)
Definition px_addr (s : fb_state) (y x : Z) : Z :=
  u32 (g_fb s + 4 * u32 (y * g_width s + x)).

Definition px (s : fb_state) (y x : Z) : option Z := mem s !! px_addr s y x.

(* The globals hold values of their type, and the screen, 4 bytes for
   each of its [g_width * g_height] pixels from [g_fb] on, lies inside
   the 32-bit address space. *)
Record fb_wf (s : fb_state) : Prop := {
  wf_fb : 0 <= g_fb s;
  wf_width : 0 <= g_width s < 2 ^ 32;
  wf_height : 0 <= g_height s < 2 ^ 32;
  wf_fits : g_fb s + 4 * (g_width s * g_height s) <= 2 ^ 32
}.

Definition same_globals (s s' : fb_state) : Prop :=
  g_fb s' = g_fb s /\ g_pitch s' = g_pitch s /\ g_width s' = g_width s /\
  g_height s' = g_height s /\ g_bpp s' = g_bpp s.

(* From [s] to [s'] the cells with an address in [P] were set to [v],
   and nothing else changed. *)
Definition painted (P : Z -> Prop) (v : Z) (s s' : fb_state) : Prop :=
  same_globals s s' /\
  forall a, (P a /\ mem s' !! a = Some v) \/
            (~ P a /\ mem s' !! a = mem s !! a).

(* A 640x480 screen at 0xFD000000 to run the code on. *)
Definition sample_screen : fb_state :=
  {| g_fb := 0xFD000000; g_pitch := 2560; g_width := 640; g_height := 480;
     g_bpp := 32; mem := ∅ |}.

End Framebuffer.

(** ** include/kernel/font.h *)

Module FontH.

(* typedef struct { ... } Font; the bitmap pointer is modelled by the
   bytes it points to. *)
Record Font : Type := mk_Font {
  w : Z;             (* uint8_t *)
  h : Z;             (* uint8_t *)
  name : string;     (* uint8_t* *)
  font : list Z      (* uint8_t* *)
}.

Inductive bit_result : Type :=
| Bit (b : bool)      (* the function returned [b] *)
| OutOfBounds         (* a byte outside the bitmap was read *)
| UndefinedShift.     (* an int was shifted by its width or more *)

(* static inline bool get_font_bit(Font* font, uint8_t c, uint8_t y,
                                   uint8_t x) *)
Definition get_font_bit (font : Font) (c y x : Z) : bit_result :=
  let c := u8 c in
  let y := u8 y in
  let x := u8 x in
  let y := if decide (y > h font) then h font else y in
  let x := if decide (x > w font) then w font else x in
  match FontH.font font !! Z.to_nat (c * h font + y) with
  | None => OutOfBounds
  | Some byte =>
      if decide (x >= 32) then UndefinedShift
      else Bit (bool_decide (Z.land byte (Z.shiftr 0x80 x) <> 0))
  end.

(* A font record holds values of its field types. *)
Record font_wf (f : Font) : Prop := {
  wf_w : 0 <= w f < 2 ^ 8;
  wf_h : 0 <= h f < 2 ^ 8;
  wf_bytes : Forall (fun b => 0 <= b < 2 ^ 8) (font f)
}.

(* An 8x2 font whose every character is a top-left dot over a full row. *)
Definition sample_font : Font :=
  {| w := 8; h := 2; name := "dots";
     font := concat (replicate 256 [0x80; 0xFF]) |}.

(* The same font with one more byte after its bitmap. *)
Definition sample_font_padded : Font :=
  {| w := 8; h := 2; name := "dots";
     font := concat (replicate 256 [0x80; 0xFF]) ++ [0] |}.

End FontH.

(** ** include/kernel/datetime.h and src/kernel/kernel.c *)

Module KernelC.

(* typedef struct { uint8_t h, m, s; } Time; *)
Record Time : Type := mk_Time {
  time_h : Z;   (* h *)
  time_m : Z;   (* m *)
  time_s : Z    (* s *)
}.

(* typedef struct { uint8_t d, m; uint16_t y; uint8_t c; } Date; *)
Record Date : Type := mk_Date {
  date_d : Z;   (* d *)
  date_m : Z;   (* m *)
  date_y : Z;   (* y *)
  date_c : Z    (* c *)
}.

(* typedef struct { Date date; Time time; } DateTime; *)
Record DateTime : Type := mk_DateTime {
  date : Date;
  time : Time
}.

(* The character '0'. *)
Definition char_0 : Z := 48.

(* *(str + p) = v, in the array [str] of chars; None when [p] is not
   inside the array. *)
Definition poke (p : nat) (v : Z) (str : list Z) : option (list Z) :=
  if decide (p < length str)%nat then Some (<[p := u8 v]> str) else None.

Section FormatDate.

(* itoa (the kernel's libc, not among the sources): called as
   [itoa(p, n)] with [p] a position in the array. *)
Variable itoa : nat -> Z -> list Z -> option (list Z).

(* #define PAD_ZEROS(n, p), with [p] = &str[p] *)
Definition PAD_ZEROS (n : Z) (p : nat) (str : list Z) : option (list Z) :=
  if decide (n < 10) then
    str ← poke p char_0 str;
    poke (p + 1) (n + char_0) str
  else
    tmp ← str !! (p + 2)%nat;
    str ← itoa p n str;
    poke (p + 2) tmp str.

(* static inline void format_date(char* str, DateTime now) *)
Definition format_date (str : list Z) (now : DateTime) : option (list Z) :=
  str ← PAD_ZEROS (date_d (date now)) 0 str;
  str ← PAD_ZEROS (date_m (date now)) 3 str;
  str ← PAD_ZEROS (date_y (date now)) 6 str;
  str ← PAD_ZEROS (time_h (time now)) 11 str;
  str ← PAD_ZEROS (time_m (time now)) 14 str;
  PAD_ZEROS (time_s (time now)) 17 str.

End FormatDate.

(* char date_fmt[] = "00/00/00 - 00:00:00"; (kernel_main), with its
   terminating zero. *)
Definition date_fmt : list Z :=
  [48; 48; 47; 48; 48; 47; 48; 48; 32; 45; 32;
   48; 48; 58; 48; 48; 58; 48; 48; 0].

(* An itoa that writes the decimal digits of a number below 100 and the
   terminating zero, to run format_date on. *)
Definition sample_itoa (p : nat) (n : Z) (str : list Z) : option (list Z) :=
  str ← poke p (n / 10 + char_0) str;
  str ← poke (p + 1) (n mod 10 + char_0) str;
  poke (p + 2) 0 str.

End KernelC.

(** ** More tasks to run dump_task_list on *)

Module MultitaskSamples.
Import Multitask.

(* A task at 0x3000 whose [next] leads into the ring of idle and shell,
   which does not lead back to it. *)
Definition orphan : Ctx :=
  {| name := "orphan"; prev := 0x2000; next := 0x1000;
     stack := 0xD000; esp := 0xCFC0; cr3 := 0x100000; state := 0 |}.

Definition orphan_mem : gmap Z Ctx := <[0x3000 := orphan]> two_tasks_mem.

End MultitaskSamples.

(** * Properties *)

Lemma u8_id z : 0 <= z < 2 ^ 8 -> u8 z = z.
Proof. intros H. unfold u8. by rewrite Z.mod_small. Qed.

Lemma u16_id z : 0 <= z < 2 ^ 16 -> u16 z = z.
Proof. intros H. unfold u16. by rewrite Z.mod_small. Qed.

Lemma u32_id z : 0 <= z < 2 ^ 32 -> u32 z = z.
Proof. intros H. unfold u32. by rewrite Z.mod_small. Qed.

(** ** register_isr *)

Lemma gate_u32 func : gate (u32 func) = gate func.
Proof. unfold gate, u32. by rewrite Z.mod_mod. Qed.

Lemma boot_wf : wf boot.
Proof. reflexivity. Qed.

(* A call with an index inside the table is one store and returns. *)
Lemma register_isr_in_range idx func s :
  wf s -> 0 <= idx < IDT_SZ ->
  register_isr idx func s =
    Done tt (with_idt (<[Z.to_nat idx := gate func]> (idt s)) s)
         [EIdtStore idx (gate func)].
Proof.
  intros Hwf Hidx. unfold IDT_SZ in Hidx.
  unfold register_isr, mbind, kernel_bind.
  rewrite u16_id by lia. rewrite gate_u32.
  destruct (decide (idx >= IDT_SZ)) as [Hge|_]; [unfold IDT_SZ in Hge; lia|].
  unfold mret, kernel_ret, idt_store. simpl.
  destruct (decide _) as [_|Hn]; [done|].
  exfalso. apply Hn. unfold wf, IDT_SZ in Hwf. lia.
Qed.

(* A call with an index past the table panics before the store. *)
Lemma register_isr_past_end idx func s :
  IDT_SZ <= idx < 2 ^ 16 ->
  register_isr idx func s =
    Halted "Idx out of bounds when registering ISR." s [].
Proof.
  intros Hidx. unfold IDT_SZ in Hidx.
  unfold register_isr, mbind, kernel_bind.
  rewrite u16_id by lia.
  destruct (decide (idx >= IDT_SZ)) as [_|Hlt]; [done|].
  unfold IDT_SZ in Hlt. lia.
Qed.

(* Splitting a 32-bit value into 16-bit halves loses nothing. *)
Lemma halves_recombine a :
  0 <= a < 2 ^ 32 ->
  Z.land (Z.shiftr a 16) 0xFFFF * 2 ^ 16 + Z.land a 0xFFFF = a.
Proof.
  intros Ha.
  change 0xFFFF with (Z.ones 16).
  rewrite !Z.land_ones by lia. rewrite Z.shiftr_div_pow2 by lia.
  rewrite (Z.mod_small (a / 2 ^ 16)).
  - pose proof (Z.div_mod a (2 ^ 16)). lia.
  - split; [apply Z.div_pos; lia|].
    apply Z.div_lt_upper_bound; lia.
Qed.

Lemma gate_offsets a :
  0 <= a < 2 ^ 32 -> offset_h (gate a) * 2 ^ 16 + offset_l (gate a) = a.
Proof.
  intros Ha. unfold gate. simpl. rewrite u32_id by done.
  change 0xFFFF with (Z.ones 16). rewrite !Z.land_ones by lia.
  unfold u16. rewrite !Z.mod_mod by lia.
  rewrite <- !Z.land_ones by lia. by apply halves_recombine.
Qed.


(* Decoding the offsets of a descriptor gives the handler as a uint32_t. *)
Lemma gate_decode (func : Z) :
  offset_h (gate func) * 2 ^ 16 + offset_l (gate func) = u32 func.
Proof.
  rewrite <- gate_u32. apply gate_offsets. apply Z.mod_pos_bound. lia.
Qed.

(* Each offset field holds a 16-bit half. *)
Lemma gate_offset_ranges (func : Z) :
  0 <= offset_l (gate func) < 2 ^ 16 /\ 0 <= offset_h (gate func) < 2 ^ 16.
Proof. unfold gate; simpl. split; apply Z.mod_pos_bound; lia. Qed.

Lemma gate_interrupt_gate_to (h : Z) : interrupt_gate_to (gate h) h.
Proof.
  pose proof (gate_offset_ranges h) as [Hl Hh].
  repeat split; try done; try apply Hl; try apply Hh. apply gate_decode.
Qed.

(** C3: for every index [0 <= i < 256] and every 32-bit handler address,
    the call returns and the descriptor then stored at [i] has offset
    fields that are 16-bit values with
    [offset_h * 2^16 + offset_l = addr]: the two 16-bit halves put back
    together are the address. *)
Theorem register_isr_offset_roundtrip (i addr : Z) (s : machine) :
  wf s -> 0 <= i < 256 -> 0 <= addr < 2 ^ 32 ->
  exists s' t e,
    register_isr i addr s = Done tt s' t /\
    idt s' !! Z.to_nat i = Some e /\
    0 <= offset_l e < 2 ^ 16 /\
    0 <= offset_h e < 2 ^ 16 /\
    offset_h e * 2 ^ 16 + offset_l e = addr.
Proof.
  intros Hwf Hi Ha.
  eexists _, _, (gate addr). split; [by apply register_isr_in_range|].
  split; [simpl; apply list_lookup_insert_eq; unfold wf, IDT_SZ in Hwf; lia|].
  pose proof (gate_offset_ranges addr) as [Hl Hh].
  split; [exact Hl|]. split; [exact Hh|]. by apply gate_offsets.
Qed.

Lemma register_isr_offset_roundtrip_witness :
  exists s' t e,
    register_isr 33 0x00101234 boot = Done tt s' t /\
    idt s' !! Z.to_nat 33 = Some e /\
    0 <= offset_l e < 2 ^ 16 /\
    0 <= offset_h e < 2 ^ 16 /\
    offset_h e * 2 ^ 16 + offset_l e = 0x00101234.
Proof.
  apply (register_isr_offset_roundtrip 33 0x00101234 boot);
    [reflexivity | lia | lia].
Defined.

(** C5: for every index [i >= 256] of the parameter's 16-bit type and
    every handler address, the call ends in the fatal-configuration halt
    instead of returning, having performed no action: the machine state
    in which it halts, table included, is the one it was called in. *)
Theorem register_isr_out_of_range_halts (i addr : Z) (s : machine) :
  256 <= i < 2 ^ 16 ->
  exists msg,
    register_isr i addr s = Halted msg s [] /\
    forall s' t, register_isr i addr s <> Done tt s' t.
Proof.
  intros Hi. eexists. rewrite register_isr_past_end by done.
  split; [reflexivity | discriminate].
Qed.

Lemma register_isr_out_of_range_halts_witness :
  exists msg,
    register_isr 256 0x00101234 boot = Halted msg boot [] /\
    forall s' t, register_isr 256 0x00101234 boot <> Done tt s' t.
Proof.
  apply (register_isr_out_of_range_halts 256 0x00101234 boot). lia.
Defined.

(** C8: for every index [0 <= i < 256], the descriptor stored at [i] has
    the fixed kernel-interrupt-gate values in its other fields: selector
    0x8, attributes byte 0x8E (present bit 7 set, privilege level in bits
    5-6 zero, gate kind in bits 0-4 the 32-bit interrupt gate) and a zero
    reserved byte. *)
Theorem register_isr_fixed_fields (i addr : Z) (s : machine) :
  wf s -> 0 <= i < 256 ->
  exists s' t e,
    register_isr i addr s = Done tt s' t /\
    idt s' !! Z.to_nat i = Some e /\
    selector e = 0x8 /\
    type e = 0x8E /\
    Z.testbit (type e) 7 = true /\
    Z.land (Z.shiftr (type e) 5) 0x3 = 0 /\
    Z.land (type e) 0x1F = IDT_GATE_32BIT_INT /\
    zero e = 0.
Proof.
  intros Hwf Hi.
  eexists _, _, (gate addr). split; [by apply register_isr_in_range|].
  split; [|done].
  simpl. apply list_lookup_insert_eq. unfold wf, IDT_SZ in Hwf. lia.
Qed.

Lemma register_isr_fixed_fields_witness :
  exists s' t e,
    register_isr 0 0xC0100000 boot = Done tt s' t /\
    idt s' !! Z.to_nat 0 = Some e /\
    selector e = 0x8 /\
    type e = 0x8E /\
    Z.testbit (type e) 7 = true /\
    Z.land (Z.shiftr (type e) 5) 0x3 = 0 /\
    Z.land (type e) 0x1F = IDT_GATE_32BIT_INT /\
    zero e = 0.
Proof.
  apply (register_isr_fixed_fields 0 0xC0100000 boot); [reflexivity | lia].
Defined.

(** C9: for every valid index [i], the call changes the table at [i]
    only: every other entry, the table's length, the table descriptor,
    the loaded IDT register and the interrupt flag are as before, and the
    single action of the call is that one store (no port is written). *)
Theorem register_isr_frame (i addr : Z) (s : machine) :
  wf s -> 0 <= i < 256 ->
  exists s' e,
    register_isr i addr s = Done tt s' [EIdtStore i e] /\
    (forall j : nat, j <> Z.to_nat i -> idt s' !! j = idt s !! j) /\
    length (idt s') = length (idt s) /\
    descriptor s' = descriptor s /\
    idtr s' = idtr s /\
    iflag s' = iflag s /\
    s' = with_idt (idt s') s.
Proof.
  intros Hwf Hi.
  eexists _, _. split; [by apply register_isr_in_range|].
  simpl. split; [|by rewrite length_insert].
  intros j Hj. by apply list_lookup_insert_ne.
Qed.

Lemma register_isr_frame_witness :
  exists s' e,
    register_isr 14 0x00100400 boot = Done tt s' [EIdtStore 14 e] /\
    (forall j : nat, j <> Z.to_nat 14 -> idt s' !! j = idt boot !! j) /\
    length (idt s') = length (idt boot) /\
    descriptor s' = descriptor boot /\
    idtr s' = idtr boot /\
    iflag s' = iflag boot /\
    s' = with_idt (idt s') boot.
Proof.
  apply (register_isr_frame 14 0x00100400 boot); [reflexivity | lia].
Defined.

(** ** Running sequences of kernel code *)

Lemma bind_done {A B} (m : kernel A) (k : A -> kernel B) s a s' t :
  m s = Done a s' t -> (m ≫= k) s = after t (k a s').
Proof. intros H. unfold mbind, kernel_bind. by rewrite H. Qed.

Lemma after_after {A} t1 t2 (o : outcome A) :
  after t1 (after t2 o) = after (t1 ++ t2) o.
Proof. destruct o; simpl; by rewrite app_assoc. Qed.

(* The same call on a state whose table is known. *)
Lemma register_isr_step l s idx func :
  length l = Z.to_nat IDT_SZ -> 0 <= idx < IDT_SZ ->
  register_isr idx func (with_idt l s) =
    Done tt (with_idt (<[Z.to_nat idx := gate func]> l) s)
         [EIdtStore idx (gate func)].
Proof. intros Hl Hidx. by rewrite register_isr_in_range. Qed.

Lemma length_assign l rs : length (foldl assign l rs) = length l.
Proof.
  revert l. induction rs as [|r rs IH]; intros l; [done|].
  simpl. rewrite IH. apply length_insert.
Qed.

(* A loop of registrations with one handler over [i, i + n). *)
Lemma for_loop_register_isr n i func l s :
  length l = Z.to_nat IDT_SZ -> 0 <= i -> i + Z.of_nat n <= IDT_SZ ->
  for_loop n i (fun j => register_isr j func) (with_idt l s) =
    Done tt
      (with_idt (foldl assign l ((fun j => (j, func)) <$> seqZ i (Z.of_nat n))) s)
      (store_event <$> ((fun j => (j, func)) <$> seqZ i (Z.of_nat n))).
Proof.
  revert i l. induction n as [|n IH]; intros i l Hl Hi Hn; [done|].
  rewrite Nat2Z.inj_succ, seqZ_cons by lia.
  replace (Z.pred (Z.succ (Z.of_nat n))) with (Z.of_nat n) by lia.
  cbn [for_loop]. erewrite bind_done by (apply register_isr_step; [done|lia]).
  rewrite IH by (rewrite ?length_insert; (done || lia)).
  done.
Qed.

(** ** pic_remap *)

Lemma pic_remap_run s : pic_remap s = Done tt s (pic_handshake ++ pic_masks).
Proof. reflexivity. Qed.

(** C6: pic_remap writes, in this order, ICW1 (INIT|ICW4 = 0x11) to both
    command ports, the vector bases 32 and 40 to the master and slave
    data ports, the cascade words 4 and 2, and the 8086-mode words; the
    handshake done, whatever the controllers' state was before, the
    master raises vectors 32-39 and the slave 40-47, all of them above
    the CPU exception vectors 0-31, and the writes that follow do not
    change that. *)
Theorem pic_remap_handshake (s : machine) (p : PIC.pair) :
  pic_remap s =
    Done tt s
      ([EOutb PIC_MASTER_CMD (Z.lor ICW1_INIT ICW1_ICW4);
        EOutb PIC_SLAVE_CMD (Z.lor ICW1_INIT ICW1_ICW4);
        EOutb PIC_MASTER_DATA 32; EOutb PIC_SLAVE_DATA 40;
        EOutb PIC_MASTER_DATA 4; EOutb PIC_SLAVE_DATA 2;
        EOutb PIC_MASTER_DATA ICW4_8086; EOutb PIC_SLAVE_DATA ICW4_8086]
       ++ pic_masks) /\
  pic_vectors (PIC.master (PIC.replay pic_handshake p))
    = [32; 33; 34; 35; 36; 37; 38; 39] /\
  pic_vectors (PIC.slave (PIC.replay pic_handshake p))
    = [40; 41; 42; 43; 44; 45; 46; 47] /\
  pic_vectors (PIC.master (PIC.replay (pic_handshake ++ pic_masks) p))
    = [32; 33; 34; 35; 36; 37; 38; 39] /\
  pic_vectors (PIC.slave (PIC.replay (pic_handshake ++ pic_masks) p))
    = [40; 41; 42; 43; 44; 45; 46; 47] /\
  Forall (fun v => 31 < v)
    (pic_vectors (PIC.master (PIC.replay (pic_handshake ++ pic_masks) p)) ++
     pic_vectors (PIC.slave (PIC.replay (pic_handshake ++ pic_masks) p))) /\
  PIC.cascade (PIC.master (PIC.replay pic_handshake p)) = 4 /\
  PIC.cascade (PIC.slave (PIC.replay pic_handshake p)) = 2 /\
  PIC.mode (PIC.master (PIC.replay pic_handshake p)) = ICW4_8086 /\
  PIC.mode (PIC.slave (PIC.replay pic_handshake p)) = ICW4_8086.
Proof.
  split; [reflexivity|].
  do 4 (split; [reflexivity|]).
  split; [|done].
  change (pic_vectors (PIC.master (PIC.replay (pic_handshake ++ pic_masks) p)))
    with [32; 33; 34; 35; 36; 37; 38; 39].
  change (pic_vectors (PIC.slave (PIC.replay (pic_handshake ++ pic_masks) p)))
    with [40; 41; 42; 43; 44; 45; 46; 47].
  repeat constructor.
Qed.

(** C10: after the eight words of the handshake, pic_remap always ends
    with two more writes, 0 to the master's and 0 to the slave's data
    port; both controllers having finished their handshake by then,
    these set the interrupt-mask registers, so every line of both
    controllers is left unmasked. *)
Theorem pic_remap_unmasks_all (s : machine) (p : PIC.pair) :
  pic_remap s =
    Done tt s
      (pic_handshake ++ [EOutb PIC_MASTER_DATA 0; EOutb PIC_SLAVE_DATA 0]) /\
  length pic_handshake = 8%nat /\
  PIC.stage (PIC.master (PIC.replay pic_handshake p)) = PIC.Operating /\
  PIC.stage (PIC.slave (PIC.replay pic_handshake p)) = PIC.Operating /\
  PIC.imr (PIC.master (PIC.replay (pic_handshake ++ pic_masks) p)) = 0 /\
  PIC.imr (PIC.slave (PIC.replay (pic_handshake ++ pic_masks) p)) = 0 /\
  pic_line_masks (PIC.master (PIC.replay (pic_handshake ++ pic_masks) p))
    = replicate 8 false /\
  pic_line_masks (PIC.slave (PIC.replay (pic_handshake ++ pic_masks) p))
    = replicate 8 false.
Proof. repeat split; reflexivity. Qed.

(* On an initialized controller a data-port write is the mask, whatever
   the mask was. *)
Lemma pic_mask_write (v : Z) (c : PIC.chip) :
  PIC.stage c = PIC.Operating -> PIC.imr (PIC.data v c) = v.
Proof. intros H. unfold PIC.data. by rewrite H. Qed.

(** ** idt_init *)

(* Reading a table after a sequence of registrations. *)
Lemma lookup_foldl_assign rs (l : list idt_entry) (n : nat) :
  (n < length l)%nat ->
  foldl assign l rs !! n =
    match last_assignment rs n with
    | Some h => Some (gate h)
    | None => l !! n
    end.
Proof.
  intros Hn. induction rs as [|r rs IH] using rev_ind; [done|].
  unfold last_assignment. rewrite !foldl_app. simpl.
  fold (last_assignment rs n). unfold assign at 1.
  destruct (decide (Z.to_nat r.1 = n)) as [->|Hne].
  - apply list_lookup_insert_eq. by rewrite length_assign.
  - by rewrite list_lookup_insert_ne.
Qed.

(* The boolean test decides the order of actions. *)
Lemma all_beforeb_sound p q t : all_beforeb p q t = true -> all_before p q t.
Proof.
  induction t as [|e t IH]; intros Hb i j a b Hi Hj Hp Hq; [done|].
  simpl in Hb. apply andb_prop in Hb as [He Ht].
  destruct i as [|i], j as [|j]; simpl in Hi, Hj.
  - injection Hi as ->. injection Hj as ->.
    rewrite Hq, Hp in He. done.
  - lia.
  - injection Hj as ->. rewrite Hq in He.
    apply andb_prop in He as [_ Hall].
    rewrite forallb_forall in Hall.
    assert (In a t) as Hin by (apply list_elem_of_In, list_elem_of_lookup; eauto).
    apply Hall in Hin. rewrite Hp in Hin. done.
  - pose proof (IH Ht i j a b Hi Hj Hp Hq). lia.
Qed.

Section IdtInitProperties.

Variable idt_addr : Z.
Variable exc : Z -> Z.
Variables irq_pit irq_kb irq_default_master irq_default_slave : Z.

Local Abbreviation idt_init' :=
  (idt_init idt_addr exc irq_pit irq_kb irq_default_master irq_default_slave).
Local Abbreviation registrations' :=
  (registrations exc irq_pit irq_kb irq_default_master irq_default_slave).
Local Abbreviation idt_init_final' :=
  (idt_init_final idt_addr exc irq_pit irq_kb irq_default_master
     irq_default_slave).
Local Abbreviation idt_init_trace' :=
  (idt_init_trace idt_addr exc irq_pit irq_kb irq_default_master
     irq_default_slave).
Local Abbreviation vector_assignment' :=
  (vector_assignment exc irq_pit irq_kb irq_default_master irq_default_slave).

Local Ltac run_isr :=
  erewrite bind_done;
  [| apply register_isr_step;
     [rewrite ?length_insert, ?length_assign; assumption | unfold IDT_SZ; lia]].

(* The registration calls of idt_init, followed by whatever comes next. *)
Lemma registration_block_run (k : kernel unit) l s :
  length l = Z.to_nat IDT_SZ ->
  (register_isr 0 (exc 0) ;;
   register_isr 1 (exc 1) ;;
   register_isr 2 (exc 2) ;;
   register_isr 3 (exc 3) ;;
   register_isr 4 (exc 4) ;;
   register_isr 5 (exc 5) ;;
   register_isr 6 (exc 6) ;;
   register_isr 7 (exc 7) ;;
   register_isr 8 (exc 8) ;;
   register_isr 10 (exc 10) ;;
   register_isr 11 (exc 11) ;;
   register_isr 12 (exc 12) ;;
   register_isr 13 (exc 13) ;;
   register_isr 14 (exc 14) ;;
   register_isr 15 (exc 15) ;;
   register_isr 16 (exc 16) ;;
   register_isr 17 (exc 17) ;;
   register_isr 18 (exc 18) ;;
   register_isr 19 (exc 19) ;;
   register_isr 20 (exc 20) ;;
   register_isr 30 (exc 30) ;;
   register_isr 32 irq_pit ;;
   register_isr 33 irq_kb ;;
   for_range 34 40 (fun i => register_isr i irq_default_master) ;;
   for_range 40 48 (fun i => register_isr i irq_default_slave) ;;
   k) (with_idt l s) =
  after (store_event <$> registrations')
        (k (with_idt (foldl assign l registrations') s)).
Proof.
  intros Hl.
  do 23 run_isr.
  unfold for_range.
  change (Z.to_nat (40 - 34)) with 6%nat.
  change (Z.to_nat (48 - 40)) with 8%nat.
  erewrite bind_done;
    [| apply for_loop_register_isr;
       [rewrite ?length_insert; assumption | lia | unfold IDT_SZ; lia]].
  erewrite bind_done;
    [| apply for_loop_register_isr;
       [rewrite length_assign, ?length_insert; assumption
       | lia | unfold IDT_SZ; lia]].
  rewrite !after_after. reflexivity.
Qed.

(* idt_init returns, and this is all it does. *)
Lemma idt_init_run s :
  wf s -> idt_init' s = Done tt (idt_init_final' s) idt_init_trace'.
Proof.
  intros Hwf. unfold wf in Hwf. unfold idt_init.
  erewrite bind_done by reflexivity.
  erewrite bind_done by reflexivity.
  erewrite bind_done by apply pic_remap_run.
  match goal with
  | |- context [mbind ?k ?m ?st] => change st with (with_idt (idt s) st)
  end.
  rewrite registration_block_run by done.
  reflexivity.
Qed.

(* The registrations of idt_init are those of the published table. *)
Lemma last_assignment_registrations (n : nat) :
  (n < 256)%nat ->
  last_assignment registrations' n = vector_assignment' (Z.of_nat n).
Proof.
  intros Hn.
  do 256 (destruct n as [|n]; [reflexivity|]).
  lia.
Qed.

Lemma idt_init_final_lookup s v :
  wf s -> 0 <= v < 256 ->
  idt (idt_init_final' s) !! Z.to_nat v =
    match vector_assignment' v with
    | Some h => Some (gate h)
    | None => idt s !! Z.to_nat v
    end.
Proof.
  intros Hwf Hv. unfold wf, IDT_SZ in Hwf.
  unfold idt_init_final. cbn [idt].
  rewrite lookup_foldl_assign by lia.
  rewrite last_assignment_registrations by lia.
  by rewrite Z2Nat.id by lia.
Qed.

(** C4: idt_init assigns the vectors as the published table has them:
    afterwards vectors 0-8, 10-20 and 30 each hold a present interrupt
    gate whose offset is the address of their own exception handler, 32
    one to the timer-tick handler, 33 one to the keyboard handler, 34-39
    one to the master controller's default handler and 40-47 one to the
    slave controller's; every other vector is as it was before the
    call. *)
Theorem idt_init_vector_assignment (s : machine) (v : Z) :
  wf s -> 0 <= v < 256 ->
  exists s' t,
    idt_init' s = Done tt s' t /\
    if decide (0 <= v <= 8 \/ 10 <= v <= 20 \/ v = 30)
    then vector_gate s' v (exc v)
    else if decide (v = 32) then vector_gate s' v irq_pit
    else if decide (v = 33) then vector_gate s' v irq_kb
    else if decide (34 <= v <= 39) then vector_gate s' v irq_default_master
    else if decide (40 <= v <= 47) then vector_gate s' v irq_default_slave
    else idt s' !! Z.to_nat v = idt s !! Z.to_nat v.
Proof.
  intros Hwf Hv. eexists _, _. split; [by apply idt_init_run|].
  pose proof (idt_init_final_lookup s v Hwf Hv) as Hl.
  unfold vector_assignment in Hl.
  repeat case_decide; try exact Hl;
    (eexists; split; [exact Hl | apply gate_interrupt_gate_to]).
Qed.

(** C1 (amended): after idt_init has run from the boot state, every
    entry whose vector number it does not assign (9, 21-29, 31 and
    48-255) is still the all-zero record of the table's initializer, its
    present bit clear: no default handler is installed in them. *)
Theorem idt_init_unassigned_left_zero (v : Z) :
  v = 9 \/ 21 <= v <= 29 \/ v = 31 \/ 48 <= v <= 255 ->
  exists s' t e,
    idt_init' boot = Done tt s' t /\
    idt s' !! Z.to_nat v = Some e /\
    e = zero_entry /\
    Z.testbit (type e) 7 = false.
Proof.
  intros Hv. eexists _, _, zero_entry.
  split; [by apply idt_init_run, boot_wf|].
  split; [|done].
  rewrite idt_init_final_lookup by (apply boot_wf || lia).
  unfold vector_assignment. repeat case_decide; try lia.
  apply lookup_replicate_2. unfold IDT_SZ. lia.
Qed.

(** C7 (amended): idt_init returns, having acted in this order: the
    interrupt controller is remapped first (all ten port writes come
    before any vector-table entry is written), the table-descriptor load
    is issued after all 37 table writes, and interrupt delivery is
    enabled by the last action, after the load. *)
Theorem idt_init_order (s : machine) :
  wf s ->
  exists s' t,
    idt_init' s = Done tt s' t /\
    all_before is_outb is_idt_store t /\
    all_before is_idt_store is_lidt t /\
    all_before is_lidt is_sti t /\
    last t = Some ESti /\
    length (List.filter is_outb t) = 10%nat /\
    length (List.filter is_idt_store t) = 37%nat /\
    length (List.filter is_lidt t) = 1%nat /\
    length (List.filter is_sti t) = 1%nat /\
    idtr s' = Some (descriptor s') /\
    iflag s' = true.
Proof.
  intros Hwf. eexists _, _. split; [by apply idt_init_run|].
  do 3 (split; [by apply all_beforeb_sound|]).
  repeat split; reflexivity.
Qed.

End IdtInitProperties.

(** ** The boot sequence on a sample link map *)

Local Abbreviation sample_idt_init :=
  (idt_init sample_idt_addr sample_exc sample_irq_pit sample_irq_kb
     sample_irq_default_master sample_irq_default_slave).

Lemma idt_init_vector_assignment_witness :
  exists s' t,
    sample_idt_init boot = Done tt s' t /\
    vector_gate s' 33 sample_irq_kb.
Proof.
  apply (idt_init_vector_assignment sample_idt_addr sample_exc sample_irq_pit
           sample_irq_kb sample_irq_default_master sample_irq_default_slave
           boot 33); [reflexivity | lia].
Defined.

Lemma idt_init_unassigned_left_zero_witness :
  exists s' t e,
    sample_idt_init boot = Done tt s' t /\
    idt s' !! Z.to_nat 9 = Some e /\
    e = zero_entry /\
    Z.testbit (type e) 7 = false.
Proof.
  apply (idt_init_unassigned_left_zero sample_idt_addr sample_exc
           sample_irq_pit sample_irq_kb sample_irq_default_master
           sample_irq_default_slave 9).
  left. reflexivity.
Defined.

(** C1 (counterexample): on the sample link map, it is not the case
    that every unassigned vector holds a well-formed present gate after
    idt_init: vector 9 is not assigned and its entry is the zero record. *)
Lemma idt_init_gap_vector_not_present :
  exists s' t,
    sample_idt_init boot = Done tt s' t /\
    ~ (forall v : Z,
         0 <= v < 256 ->
         vector_assignment sample_exc sample_irq_pit sample_irq_kb
           sample_irq_default_master sample_irq_default_slave v = None ->
         exists e,
           idt s' !! Z.to_nat v = Some e /\
           Z.testbit (type e) 7 = true /\
           selector e = 0x8 /\
           type e = 0x8E /\
           e <> zero_entry).
Proof.
  eexists _, _. split; [by apply idt_init_run, boot_wf|].
  intros H. destruct (H 9) as (e & He & Hp & _); [lia | reflexivity |].
  rewrite idt_init_final_lookup in He by (apply boot_wf || lia).
  vm_compute in He. injection He as <-. discriminate Hp.
Qed.

Lemma idt_init_order_witness :
  exists s' t,
    sample_idt_init boot = Done tt s' t /\
    all_before is_outb is_idt_store t /\
    all_before is_idt_store is_lidt t /\
    all_before is_lidt is_sti t /\
    last t = Some ESti /\
    length (List.filter is_outb t) = 10%nat /\
    length (List.filter is_idt_store t) = 37%nat /\
    length (List.filter is_lidt t) = 1%nat /\
    length (List.filter is_sti t) = 1%nat /\
    idtr s' = Some (descriptor s') /\
    iflag s' = true.
Proof.
  apply (idt_init_order sample_idt_addr sample_exc sample_irq_pit
           sample_irq_kb sample_irq_default_master sample_irq_default_slave
           boot).
  reflexivity.
Defined.

(** C7 (counterexample): on the sample link map, the run from the boot
    state writes a controller port (its third action) before it writes
    any vector-table entry (the first is its thirteenth action): the
    table writes do not all come before the remap. *)
Lemma idt_init_remap_precedes_table :
  exists s' t,
    sample_idt_init boot = Done tt s' t /\
    ~ all_before is_idt_store is_outb t.
Proof.
  eexists _, _. split; [by apply idt_init_run, boot_wf|].
  intros H.
  pose proof (H 12%nat 2%nat _ _ eq_refl eq_refl eq_refl eq_refl). lia.
Qed.

(** ** dump_task_list *)

Module MultitaskProperties.
Import Multitask.

Lemma two_tasks_circular : circular two_tasks_mem two_tasks.
Proof.
  split.
  - apply (bool_decide_unpack _). by vm_compute.
  - intros [|[|k]] a c Hk; simplify_eq/=; reflexivity.
  - intros [|[|k]] a c Hk; simplify_eq/=; reflexivity.
  - intros [|[|k]] a c Hk Hlt; simpl in Hlt; try lia;
      vm_compute in Hk; simplify_eq; reflexivity.
Qed.

(* The loop entered at a task of the list, with fuel for the rest of the
   list: it prints that task and those after it, except the last. *)
Lemma dump_loop_run mem tasks a0 c0 rest :
  circular mem tasks -> tasks = (a0, c0) :: rest ->
  forall suf pre a c i fuel,
    tasks = pre ++ (a, c) :: suf ->
    (length suf < fuel)%nat ->
    dump_loop fuel mem a0 a i =
      Printed (number_lines i (snd <$> removelast ((a, c) :: suf))).
Proof.
  intros Hc Htasks.
  induction suf as [|[b d] suf IH]; intros pre a c i fuel Hsplit Hfuel.
  - destruct fuel as [|fuel]; [lia|]. simpl.
    assert (tasks !! length pre = Some (a, c)) as Hk
      by (rewrite Hsplit; apply list_lookup_middle; done).
    rewrite (circ_mem _ _ Hc _ _ _ Hk).
    pose proof (circ_next _ _ Hc _ _ _ Hk) as Hn.
    unfold neighbour in Hn.
    replace (S (length pre)) with (length tasks) in Hn
      by (rewrite Hsplit, length_app; simpl; lia).
    rewrite Nat.Div0.mod_same in Hn. rewrite Htasks in Hn. simpl in Hn.
    injection Hn as Hn. rewrite <- Hn.
    destruct (decide (a0 ≠ a0)); done.
  - destruct fuel as [|fuel]; [lia|]. simpl in Hfuel.
    assert (tasks !! length pre = Some (a, c)) as Hk
      by (rewrite Hsplit; apply list_lookup_middle; done).
    assert (tasks = (pre ++ [(a, c)]) ++ (b, d) :: suf) as Hsplit'
      by (rewrite <- app_assoc; done).
    assert (tasks !! S (length pre) = Some (b, d)) as Hk'.
    { rewrite Hsplit'. apply list_lookup_middle.
      rewrite length_app. simpl. lia. }
    pose proof (circ_next _ _ Hc _ _ _ Hk) as Hn.
    unfold neighbour in Hn.
    rewrite Nat.mod_small in Hn
      by (rewrite Hsplit, length_app; simpl; lia).
    rewrite Hk' in Hn. simpl in Hn. injection Hn as Hn.
    assert (b ≠ a0) as Hne.
    { intros ->.
      pose proof (circ_nodup _ _ Hc) as Hnd.
      assert ((fst <$> tasks) !! S (length pre) = Some a0) as H1
        by (rewrite list_lookup_fmap, Hk'; done).
      assert ((fst <$> tasks) !! 0%nat = Some a0) as H0
        by (rewrite Htasks; done).
      pose proof (NoDup_lookup _ _ _ _ Hnd H1 H0). lia. }
    cbn [dump_loop]. rewrite (circ_mem _ _ Hc _ _ _ Hk).
    rewrite <- Hn.
    destruct (decide (b ≠ a0)) as [_|Hcontra]; [|done].
    rewrite (IH (pre ++ [(a, c)]) b d (i + 1) fuel Hsplit') by lia.
    reflexivity.
Qed.

(* What dump_task_list prints for a circular list, from its current
   task: the header, the current task, and then every task but the last
   one, the current task again at their head. *)
Lemma dump_task_list_run mem a0 c0 rest fuel :
  circular mem ((a0, c0) :: rest) ->
  (length rest < fuel)%nat ->
  dump_task_list fuel mem a0 =
    Printed (Puts "Dumping task list:" :: line 0 c0 ::
             number_lines 1 (snd <$> removelast ((a0, c0) :: rest))).
Proof.
  intros Hc Hfuel. unfold dump_task_list.
  rewrite (circ_mem _ _ Hc 0%nat a0 c0) by done.
  rewrite (dump_loop_run mem _ a0 c0 rest Hc eq_refl rest [] a0 c0) by done.
  reflexivity.
Qed.

Lemma length_removelast_cons {A} (x : A) l :
  length (removelast (x :: l)) = length l.
Proof.
  revert x. induction l as [|y l IH]; intros x; [done|].
  change (removelast (x :: y :: l)) with (x :: removelast (y :: l)).
  cbn [length]. by rewrite IH.
Qed.

Lemma length_number_lines i cs : length (number_lines i cs) = length cs.
Proof. revert i. induction cs as [|c cs IH]; intros i; simpl; auto. Qed.

(* The number of lines is the number of tasks, and the first is the
   current task's. *)
Lemma dump_task_list_count mem a0 c0 rest fuel :
  circular mem ((a0, c0) :: rest) ->
  (length rest < fuel)%nat ->
  exists out,
    dump_task_list fuel mem a0 =
      Printed (Puts "Dumping task list:" :: line 0 c0 :: out) /\
    length (line 0 c0 :: out) = length ((a0, c0) :: rest).
Proof.
  intros Hc Hfuel. eexists. split; [by apply dump_task_list_run|].
  cbn [length]. by rewrite length_number_lines, length_fmap,
    length_removelast_cons.
Qed.

(** C2: on the circular list of the two tasks idle and shell, with idle
    the current task, dump_task_list returns with two lines after the
    header, and both are idle's: the current task is printed twice, as
    [0] and as [1], and shell, the other live task, has no line. *)
Theorem dump_task_list_two_tasks :
  circular two_tasks_mem two_tasks /\
  name <$> (snd <$> two_tasks) = ["idle"; "shell"] /\
  dump_task_list 2 two_tasks_mem 0x1000 =
    Printed [Puts "Dumping task list:"; line 0 idle; line 1 idle] /\
  printed_names [Puts "Dumping task list:"; line 0 idle; line 1 idle]
    = ["idle"; "idle"].
Proof.
  split; [apply two_tasks_circular|].
  split; [reflexivity|].
  split; [by vm_compute | reflexivity].
Qed.

(** X8: on a circular list of two or more tasks, dump_task_list returns
    (given fuel for one round of the list) having printed, after the
    header, the current task as line 0, the current task again as line
    1, and then the tasks that follow it in [next] order, except the
    last one of the round, which gets no line. *)
Theorem dump_task_list_lines (mem : gmap Z Ctx) (a0 an : Z) (c0 cn : Ctx)
    (mid : list (Z * Ctx)) (fuel : nat) :
  circular mem ((a0, c0) :: mid ++ [(an, cn)]) ->
  (S (length mid) < fuel)%nat ->
  dump_task_list fuel mem a0 =
    Printed (Puts "Dumping task list:" :: line 0 c0 :: line 1 c0 ::
             number_lines 2 (snd <$> mid)).
Proof.
  intros Hc Hfuel.
  rewrite (dump_task_list_run mem a0 c0 (mid ++ [(an, cn)]) fuel Hc)
    by (rewrite length_app; simpl; lia).
  change ((a0, c0) :: mid ++ [(an, cn)])
    with (((a0, c0) :: mid) ++ [(an, cn)]).
  by rewrite removelast_last.
Qed.

Lemma dump_task_list_lines_witness :
  dump_task_list 2 two_tasks_mem 0x1000 =
    Printed (Puts "Dumping task list:" :: line 0 idle :: line 1 idle ::
             number_lines 2 (snd <$> ([] : list (Z * Ctx)))).
Proof.
  apply (dump_task_list_lines two_tasks_mem 0x1000 0x2000 idle shell [] 2);
    [apply two_tasks_circular | simpl; lia].
Defined.

(** X9: on every circular list of N >= 1 tasks, dump_task_list returns
    (given fuel for one round of the list) with exactly N lines after
    the header, the first of them the current task's. *)
Theorem dump_task_list_line_count (mem : gmap Z Ctx) (a0 : Z) (c0 : Ctx)
    (rest : list (Z * Ctx)) (fuel : nat) :
  circular mem ((a0, c0) :: rest) ->
  (length rest < fuel)%nat ->
  exists out,
    dump_task_list fuel mem a0 =
      Printed (Puts "Dumping task list:" :: line 0 c0 :: out) /\
    length (line 0 c0 :: out) = length ((a0, c0) :: rest).
Proof.
  intros Hc Hfuel. eexists. split; [by apply dump_task_list_run|].
  cbn [length]. by rewrite length_number_lines, length_fmap,
    length_removelast_cons.
Qed.

Lemma dump_task_list_line_count_witness :
  exists out,
    dump_task_list 2 two_tasks_mem 0x1000 =
      Printed (Puts "Dumping task list:" :: line 0 idle :: out) /\
    length (line 0 idle :: out) = length two_tasks.
Proof.
  apply (dump_task_list_line_count two_tasks_mem 0x1000 idle
           [(0x2000, shell)] 2);
    [apply two_tasks_circular | simpl; lia].
Defined.

(* The loop never leaves a set of tasks none of which leads back to the
   first one. *)
Lemma dump_loop_diverges (mem : gmap Z Ctx) (first : Z) (reach : Z -> Prop) :
  (forall a, reach a ->
     exists c, mem !! a = Some c /\ next c <> first /\ reach (next c)) ->
  forall fuel cur i, reach cur -> dump_loop fuel mem first cur i = OutOfFuel.
Proof.
  intros HS. induction fuel as [|fuel IH]; intros cur i Hcur; [done|].
  destruct (HS cur Hcur) as (c & Hc & Hne & Hnext).
  simpl. rewrite Hc. destruct (decide (next c ≠ first)) as [_|?]; [|done].
  by rewrite IH.
Qed.

(** X10: when the [next] links followed from the current task never come
    back to it (every task reached exists and points to a task other
    than the current one), dump_task_list does not return: it is still
    in its loop after any number of rounds. *)
Theorem dump_task_list_diverges (mem : gmap Z Ctx) (cur : Z)
    (reach : Z -> Prop) (fuel : nat) :
  reach cur ->
  (forall a, reach a ->
     exists c, mem !! a = Some c /\ next c <> cur /\ reach (next c)) ->
  dump_task_list fuel mem cur = OutOfFuel.
Proof.
  intros Hcur HS. unfold dump_task_list.
  destruct (HS cur Hcur) as (c & Hc & _). rewrite Hc.
  by rewrite (dump_loop_diverges mem cur reach HS).
Qed.

Lemma dump_task_list_diverges_witness :
  dump_task_list 1000 MultitaskSamples.orphan_mem 0x3000 = OutOfFuel.
Proof.
  apply (dump_task_list_diverges MultitaskSamples.orphan_mem 0x3000
           (fun a => a = 0x3000 \/ a = 0x1000 \/ a = 0x2000) 1000).
  - left. reflexivity.
  - intros a [-> | [-> | ->]].
    + exists MultitaskSamples.orphan.
      split; [reflexivity|]. split; [discriminate|]. right. left. reflexivity.
    + exists idle.
      split; [reflexivity|]. split; [discriminate|]. right. right. reflexivity.
    + exists shell.
      split; [reflexivity|]. split; [discriminate|]. right. left. reflexivity.
Defined.

End MultitaskProperties.

(** ** framebuffer.c *)

Module FramebufferProperties.
Import Framebuffer.

Lemma same_globals_refl s : same_globals s s.
Proof. by repeat split. Qed.

Lemma same_globals_trans s1 s2 s3 :
  same_globals s1 s2 -> same_globals s2 s3 -> same_globals s1 s3.
Proof. unfold same_globals. intros (?&?&?&?&?) (?&?&?&?&?). repeat split; congruence. Qed.

Lemma painted_none v s : painted (fun _ => False) v s s.
Proof. split; [apply same_globals_refl|]. intros a. right. tauto. Qed.

Lemma painted_store i v s :
  painted (fun a => a = u32 (g_fb s + 4 * i)) v s (store i v s).
Proof.
  split; [by repeat split|]. intros a. simpl.
  destruct (decide (a = u32 (g_fb s + 4 * i))) as [->|Hne].
  - left. by rewrite lookup_insert_eq.
  - right. by rewrite lookup_insert_ne.
Qed.

Lemma painted_seq P Q v s1 s2 s3 :
  painted P v s1 s2 -> painted Q v s2 s3 ->
  painted (fun a => P a \/ Q a) v s1 s3.
Proof.
  intros [Hg1 H1] [Hg2 H2]. split; [by eapply same_globals_trans|].
  intros a. destruct (H2 a) as [[HQ Hm]|[HQ Hm]]; [left; tauto|].
  destruct (H1 a) as [[HP Hm']|[HP Hm']].
  - left. split; [tauto | congruence].
  - right. split; [tauto | congruence].
Qed.

Lemma painted_iff P Q v s s' :
  (forall a, P a <-> Q a) -> painted P v s s' -> painted Q v s s'.
Proof.
  intros HPQ [Hg H]. split; [done|]. intros a.
  destruct (H a) as [[HP Hm]|[HP Hm]]; [left | right]; split; auto;
    by rewrite <- HPQ.
Qed.

(* A loop whose every round paints its own cells paints them all. *)
Lemma loop_painted (Inv : fb_state -> Prop) (Pj : Z -> Z -> Prop) v body :
  (forall s s', Inv s -> same_globals s s' -> Inv s') ->
  (forall j s, Inv s -> painted (Pj j) v s (body j s)) ->
  forall n i s, Inv s ->
    painted (fun a => exists j, i <= j < i + Z.of_nat n /\ Pj j a) v s
            (loop n i body s).
Proof.
  intros Hinv Hbody. induction n as [|n IH]; intros i s Hs.
  - simpl. eapply painted_iff; [|apply painted_none].
    intros a. split; [done|]. intros (j & Hj & _). lia.
  - cbn [loop]. pose proof (Hbody i s Hs) as H1.
    assert (Inv (body i s)) as Hs' by (eapply Hinv; [done | apply H1]).
    pose proof (IH (i + 1) _ Hs') as H2.
    eapply painted_iff; [|exact (painted_seq _ _ _ _ _ _ H1 H2)].
    intros a. split.
    + intros [HP|(j & Hj & HP)]; [exists i | exists j]; split; auto; lia.
    + intros (j & Hj & HP). destruct (decide (j = i)) as [->|Hne];
        [by left | right; exists j; split; auto; lia].
Qed.

Lemma for_u32_painted (Inv : fb_state -> Prop) (Pj : Z -> Z -> Prop) v body
    lo hi s :
  (forall s s', Inv s -> same_globals s s' -> Inv s') ->
  (forall j s, Inv s -> painted (Pj j) v s (body j s)) ->
  Inv s ->
  painted (fun a => exists j, lo <= j < hi /\ Pj j a) v s
          (for_u32 lo hi body s).
Proof.
  intros Hinv Hbody Hs. unfold for_u32.
  eapply painted_iff; [|by apply (loop_painted Inv Pj)].
  intros a. split; intros (j & Hj & HP); exists j; split; auto; lia.
Qed.

(* The two nested loops shared by fb_init and the rectangle functions:
   with the base [F] and the row length [W] they index with, they paint
   the cells of [y0, y1) x [x0, x1). *)
Lemma rect_painted (row_len : fb_state -> Z) F W v y0 y1 x0 x1 s :
  (forall s s', same_globals s s' -> row_len s' = row_len s) ->
  g_fb s = F -> row_len s = W ->
  painted
    (fun a => exists cy, y0 <= cy < y1 /\
              exists cx, x0 <= cx < x1 /\
                a = u32 (F + 4 * u32 (cy * W + cx)))
    v s
    (for_u32 y0 y1 (fun cy =>
       for_u32 x0 x1 (fun cx s' => store (u32 (cy * row_len s' + cx)) v s'))
       s).
Proof.
  intros Hrow HF HW.
  set (Inv := fun s : fb_state => g_fb s = F /\ row_len s = W).
  assert (forall s s', Inv s -> same_globals s s' -> Inv s') as Hinv.
  { intros s1 s2 [H1 H2] Hg. split; [|by rewrite (Hrow _ _ Hg)].
    destruct Hg as (-> & _). done. }
  apply (for_u32_painted Inv
           (fun cy a => exists cx, x0 <= cx < x1 /\
                        a = u32 (F + 4 * u32 (cy * W + cx))));
    [done | | done].
  intros cy s1 Hs1.
  apply (for_u32_painted Inv (fun cx a => a = u32 (F + 4 * u32 (cy * W + cx))));
    [done | | done].
  intros cx s2 [H1 H2]. rewrite H2, <- H1. apply painted_store.
Qed.

(* On a screen inside the address space, the cell of a pixel is at its
   plain address, and different pixels have different cells. *)
Lemma px_addr_plain s y x :
  fb_wf s -> 0 <= y < g_height s -> 0 <= x < g_width s ->
  px_addr s y x = g_fb s + 4 * (y * g_width s + x) /\
  0 <= y * g_width s + x < g_width s * g_height s.
Proof.
  intros [Hfb Hgw Hgh Hfit] Hy Hx.
  assert (0 <= y * g_width s + x < g_width s * g_height s) as Hi by nia.
  split; [|done]. unfold px_addr.
  rewrite (u32_id (y * g_width s + x)) by lia. apply u32_id. lia.
Qed.

Lemma px_addr_inj s y x y' x' :
  fb_wf s ->
  0 <= y < g_height s -> 0 <= x < g_width s ->
  0 <= y' < g_height s -> 0 <= x' < g_width s ->
  px_addr s y x = px_addr s y' x' -> y = y' /\ x = x'.
Proof.
  intros Hwf Hy Hx Hy' Hx'.
  destruct (px_addr_plain s y x Hwf Hy Hx) as [-> _].
  destruct (px_addr_plain s y' x' Hwf Hy' Hx') as [-> _].
  intros Heq. assert (y = y') as -> by nia. split; [done | lia].
Qed.

(* What the unchecked rectangle loops do, for arguments of their type. *)
Lemma fb_drawrect_fast_painted y x h w col s :
  0 <= y < 2 ^ 32 -> 0 <= x < 2 ^ 32 -> 0 <= h < 2 ^ 32 -> 0 <= w < 2 ^ 32 ->
  painted
    (fun a => exists cy, y <= cy < u32 (y + h) /\
              exists cx, x <= cx < u32 (x + w) /\ a = px_addr s cy cx)
    (u32 col) s (fb_drawrect_fast y x h w col s).
Proof.
  intros Hy Hx Hh Hw. unfold fb_drawrect_fast, px_addr.
  rewrite (u32_id y), (u32_id x), (u32_id h), (u32_id w) by done.
  apply (rect_painted g_width); [|done|done].
  by intros s1 s2 (_ & _ & -> & _).
Qed.

(* The clamped extents of fb_drawrect_col end before the last row and
   the last column. *)
Lemma clamp_extent g y h :
  0 <= g < 2 ^ 32 -> 0 <= y < g -> 0 <= h < 2 ^ 32 ->
  u32 (y + (if decide (u32 (y + h) >= g)
            then u32 (u32 (g - y) - 1) else h)) <= g - 1.
Proof.
  intros Hg Hy Hh. destruct (decide _) as [Hc|Hc]; [|lia].
  rewrite (u32_id (g - y)) by lia. rewrite (u32_id (g - y - 1)) by lia.
  rewrite u32_id by lia. lia.
Qed.

Lemma clamp_extent_exact g y h :
  0 <= g < 2 ^ 32 -> 0 <= y < g -> 0 <= h -> y + h < 2 ^ 32 ->
  u32 (y + (if decide (u32 (y + h) >= g)
            then u32 (u32 (g - y) - 1) else h)) = Z.min (y + h) (g - 1).
Proof.
  intros Hg Hy Hh Hyh. rewrite (u32_id (y + h)) by lia.
  destruct (decide _) as [Hc|Hc].
  - rewrite (u32_id (g - y)) by lia. rewrite (u32_id (g - y - 1)) by lia.
    rewrite u32_id by lia. lia.
  - rewrite u32_id by lia. lia.
Qed.

Lemma fb_drawrect_col_painted y x h w col s :
  0 <= g_width s < 2 ^ 32 -> 0 <= g_height s < 2 ^ 32 ->
  0 <= y < 2 ^ 32 -> 0 <= x < 2 ^ 32 -> 0 <= h < 2 ^ 32 -> 0 <= w < 2 ^ 32 ->
  exists y1 x1,
    y1 <= g_height s - 1 /\ x1 <= g_width s - 1 /\
    (y + h < 2 ^ 32 -> y1 = Z.min (y + h) (g_height s - 1)) /\
    (x + w < 2 ^ 32 -> x1 = Z.min (x + w) (g_width s - 1)) /\
    painted
      (fun a => exists cy, y <= cy < y1 /\
                exists cx, x <= cx < x1 /\ a = px_addr s cy cx)
      (u32 col) s (fb_drawrect_col y x h w col s).
Proof.
  intros Hgw Hgh Hy Hx Hh Hw. unfold fb_drawrect_col.
  rewrite (u32_id y), (u32_id x), (u32_id h), (u32_id w) by done.
  destruct (decide (y >= g_height s \/ x >= g_width s)) as [Hout|Hin].
  - exists (Z.min (y + h) (g_height s - 1)), (Z.min (x + w) (g_width s - 1)).
    split; [lia|]. split; [lia|]. split; [done|]. split; [done|].
    eapply painted_iff; [|apply painted_none].
    intros a. split; [done|]. intros (cy & Hcy & cx & Hcx & _). lia.
  - assert (0 <= y < g_height s) as Hy' by lia.
    assert (0 <= x < g_width s) as Hx' by lia.
    eexists _, _.
    split; [by apply (clamp_extent (g_height s) y h)|].
    split; [by apply (clamp_extent (g_width s) x w)|].
    split; [intros ?; apply clamp_extent_exact; lia|].
    split; [intros ?; apply clamp_extent_exact; lia|].
    unfold px_addr. apply (rect_painted g_width); [|done|done].
    by intros s1 s2 (_ & _ & -> & _).
Qed.


(** X12: when the [w * h] cells from [fb] on lie inside the 32-bit
    address space, fb_init writes no other cell: every cell of memory
    that is not one of them is as it was (the globals, kept apart from
    this memory, are what fb_init sets). *)
Theorem fb_init_frame (fb pitch w h bpp : Z) (s : fb_state) (a : Z) :
  0 <= fb < 2 ^ 32 -> 0 <= w < 2 ^ 32 -> 0 <= h < 2 ^ 32 ->
  fb + 4 * (w * h) <= 2 ^ 32 ->
  (forall i, 0 <= i < w * h -> a <> fb + 4 * i) ->
  mem (fb_init fb pitch w h bpp s) !! a = mem s !! a.
Proof.
  intros Hfb Hw Hh Hfit Ha. unfold fb_init.
  assert (0 <= w * h) as Hwh by nia.
  rewrite (u32_id fb), (u32_id w), (u32_id h) by lia.
  set (s0 := {| g_fb := fb; g_pitch := u32 pitch; g_width := w;
                g_height := h; g_bpp := u32 bpp; mem := mem s |}).
  destruct (rect_painted (fun _ => w) fb w 0 0 h 0 w s0) as [_ Hm];
    [done | done | done |].
  destruct (Hm a) as [[(cy & Hcy & cx & Hcx & ->) _]|[_ H]]; [|done].
  exfalso. assert (0 <= cy * w + cx < w * h) as Hi by nia.
  apply (Ha (cy * w + cx) Hi).
  rewrite (u32_id (cy * w + cx)) by lia. apply u32_id. lia.
Qed.

(** X13: on a screen that lies inside the address space, fb_setpx_col
    with a pixel inside the screen sets that pixel: it then reads [col],
    every other pixel of the screen reads what it read before, and the
    globals are unchanged. *)
Theorem fb_setpx_col_sets (y x col : Z) (s : fb_state) (y' x' : Z) :
  fb_wf s ->
  0 <= y < g_height s -> 0 <= x < g_width s -> 0 <= col < 2 ^ 32 ->
  0 <= y' < g_height s -> 0 <= x' < g_width s ->
  px (fb_setpx_col y x col s) y x = Some col /\
  (y' <> y \/ x' <> x ->
   px (fb_setpx_col y x col s) y' x' = px s y' x') /\
  same_globals s (fb_setpx_col y x col s).
Proof.
  intros Hwf Hy Hx Hcol Hy' Hx'. pose proof Hwf as [Hfb Hgw Hgh Hfit].
  unfold fb_setpx_col.
  rewrite (u32_id y), (u32_id x), (u32_id col) by lia.
  destruct (decide (y >= g_height s \/ x >= g_width s)) as [?|_]; [lia|].
  unfold px. change (px_addr (store ?i ?v s) ?a ?b) with (px_addr s a b).
  cbn [mem store]. fold (px_addr s y x).
  split; [by rewrite lookup_insert_eq|]. split; [|by repeat split].
  intros Hne. rewrite lookup_insert_ne; [done|].
  intros Heq. apply px_addr_inj in Heq; [lia | done..].
Qed.

(** X14: on a screen that lies inside the address space, fb_setpx_col
    never writes outside the screen: whatever its arguments, a cell of
    memory either is as it was or is the cell of a pixel inside the
    screen (and outside the screen the call changes nothing at all). *)
Theorem fb_setpx_col_safe (y x col : Z) (s : fb_state) (a : Z) :
  fb_wf s ->
  same_globals s (fb_setpx_col y x col s) /\
  (mem (fb_setpx_col y x col s) !! a = mem s !! a \/
   exists cy cx,
     0 <= cy < g_height s /\ 0 <= cx < g_width s /\ a = px_addr s cy cx).
Proof.
  intros [Hfb Hgw Hgh Hfit]. unfold fb_setpx_col.
  destruct (decide (u32 y >= g_height s \/ u32 x >= g_width s)) as [?|Hin].
  - split; [apply same_globals_refl | by left].
  - split; [by repeat split|]. cbn [mem store].
    fold (px_addr s (u32 y) (u32 x)).
    destruct (decide (a = px_addr s (u32 y) (u32 x))) as [->|Hne].
    + right. exists (u32 y), (u32 x).
      assert (0 <= u32 y < 2 ^ 32) by (apply Z.mod_pos_bound; lia).
      assert (0 <= u32 x < 2 ^ 32) by (apply Z.mod_pos_bound; lia).
      repeat split; (done || lia).
    + left. by rewrite lookup_insert_ne.
Qed.

(** X15: on a screen that lies inside the address space,
    fb_drawrect_col never writes outside the screen, nor in its last row
    or last column: whatever rectangle is asked for, a cell of memory
    either is as it was or is the cell of a pixel in rows
    [y .. g_height - 2] and columns [x .. g_width - 2]. *)
Theorem fb_drawrect_col_inside (y x h w col : Z) (s : fb_state) (a : Z) :
  fb_wf s ->
  0 <= y < 2 ^ 32 -> 0 <= x < 2 ^ 32 -> 0 <= h < 2 ^ 32 -> 0 <= w < 2 ^ 32 ->
  same_globals s (fb_drawrect_col y x h w col s) /\
  (mem (fb_drawrect_col y x h w col s) !! a = mem s !! a \/
   exists cy cx,
     y <= cy < g_height s - 1 /\ x <= cx < g_width s - 1 /\
     a = px_addr s cy cx).
Proof.
  intros [Hfb Hgw Hgh Hfit] Hy Hx Hh Hw.
  destruct (fb_drawrect_col_painted y x h w col s)
    as (y1 & x1 & Hy1 & Hx1 & _ & _ & Hg & Hm); [done..|].
  split; [done|].
  destruct (Hm a) as [[(cy & Hcy & cx & Hcx & ->) _]|[_ H]]; [|by left].
  right. exists cy, cx. repeat split; (done || lia).
Qed.

(** X16: on a screen that lies inside the address space, the pixels
    fb_drawrect_col paints are those of the rectangle asked for that lie
    before the last row and the last column of the screen: such a pixel
    then reads [col], and every other pixel of the screen reads what it
    read before. A rectangle that reaches the bottom or the right edge
    is cut one pixel short of it. *)
Theorem fb_drawrect_col_pixels (y x h w col : Z) (s : fb_state) (cy cx : Z) :
  fb_wf s ->
  0 <= y -> 0 <= x -> 0 <= h -> 0 <= w ->
  y + h < 2 ^ 32 -> x + w < 2 ^ 32 -> 0 <= col < 2 ^ 32 ->
  0 <= cy < g_height s -> 0 <= cx < g_width s ->
  px (fb_drawrect_col y x h w col s) cy cx =
    if decide (y <= cy < Z.min (y + h) (g_height s - 1) /\
               x <= cx < Z.min (x + w) (g_width s - 1))
    then Some col else px s cy cx.
Proof.
  intros Hwf Hy Hx Hh Hw Hyh Hxw Hcol Hcy Hcx.
  pose proof Hwf as [Hfb Hgw Hgh Hfit].
  destruct (fb_drawrect_col_painted y x h w col s)
    as (y1 & x1 & _ & _ & Hy1 & Hx1 & Hg & Hm); [lia..|].
  rewrite Hy1, Hx1 in Hm by done. clear Hy1 Hx1.
  rewrite (u32_id col) in Hm by done.
  destruct Hg as (Hg1 & _ & Hg3 & _).
  unfold px. replace (px_addr (fb_drawrect_col y x h w col s) cy cx)
    with (px_addr s cy cx) by (unfold px_addr; by rewrite Hg1, Hg3).
  destruct (Hm (px_addr s cy cx))
    as [[(cy' & Hcy' & cx' & Hcx' & Heq) Hv]|[Hn Hv]].
  - apply px_addr_inj in Heq as [-> ->]; [|done || lia..].
    destruct (decide _) as [_|Hd]; [done | lia].
  - destruct (decide _) as [Hd|_]; [|done].
    exfalso. apply Hn. exists cy. split; [lia|]. exists cx. split; [lia|done].
Qed.

(** X17: for a rectangle that ends before the last row and the last
    column of the screen, fb_drawrect_fast does exactly what
    fb_drawrect_col does. *)
Theorem fb_drawrect_fast_agrees (y x h w col : Z) (s : fb_state) :
  0 <= y -> 0 <= x -> 0 <= h -> 0 <= w ->
  g_height s < 2 ^ 32 -> g_width s < 2 ^ 32 ->
  y + h < g_height s -> x + w < g_width s ->
  fb_drawrect_fast y x h w col s = fb_drawrect_col y x h w col s.
Proof.
  intros Hy Hx Hh Hw Hgh Hgw Hyh Hxw.
  unfold fb_drawrect_fast, fb_drawrect_col.
  rewrite (u32_id y), (u32_id x), (u32_id h), (u32_id w) by lia.
  destruct (decide (y >= g_height s \/ x >= g_width s)) as [?|_]; [lia|].
  rewrite (u32_id (y + h)), (u32_id (x + w)) by lia.
  destruct (decide (y + h >= g_height s)) as [?|_]; [lia|].
  destruct (decide (x + w >= g_width s)) as [?|_]; [lia|].
  by rewrite (u32_id (y + h)), (u32_id (x + w)) by lia.
Qed.

(** X18: on a screen that lies inside the address space, fb_drawrect_fast
    paints the whole of a rectangle that lies on the screen, its part in
    the last row and the last column included (where fb_drawrect_col
    stops short): a pixel of the rectangle then reads [col], every other
    pixel of the screen reads what it read before, and the globals are
    unchanged. *)
Theorem fb_drawrect_fast_fills (y x h w col : Z) (s : fb_state) (cy cx : Z) :
  fb_wf s ->
  0 <= y -> 0 <= x -> 0 <= h -> 0 <= w ->
  y + h <= g_height s -> x + w <= g_width s -> 0 <= col < 2 ^ 32 ->
  0 <= cy < g_height s -> 0 <= cx < g_width s ->
  px (fb_drawrect_fast y x h w col s) cy cx =
    (if decide (y <= cy < y + h /\ x <= cx < x + w)
     then Some col else px s cy cx) /\
  same_globals s (fb_drawrect_fast y x h w col s).
Proof.
  intros Hwf Hy Hx Hh Hw Hyh Hxw Hcol Hcy Hcx.
  pose proof Hwf as [Hfb Hgw Hgh Hfit].
  destruct (fb_drawrect_fast_painted y x h w col s) as [Hg Hm]; [lia..|].
  split; [|done].
  rewrite (u32_id col), (u32_id (y + h)), (u32_id (x + w)) in Hm by lia.
  destruct Hg as (Hg1 & _ & Hg3 & _).
  unfold px. replace (px_addr (fb_drawrect_fast y x h w col s) cy cx)
    with (px_addr s cy cx) by (unfold px_addr; by rewrite Hg1, Hg3).
  destruct (Hm (px_addr s cy cx))
    as [[(cy' & Hcy' & cx' & Hcx' & Heq) Hv]|[Hn Hv]].
  - apply px_addr_inj in Heq as [-> ->]; [|done || lia..].
    destruct (decide _) as [_|Hd]; [done | lia].
  - destruct (decide _) as [Hd|_]; [|done].
    exfalso. apply Hn. exists cy. split; [lia|]. exists cx. split; [lia|done].
Qed.

Lemma sample_screen_wf : fb_wf sample_screen.
Proof. split; simpl; lia. Qed.


Lemma fb_init_frame_witness :
  mem (fb_init 0xFD000000 2560 640 480 32 sample_screen) !! 0x1000
    = mem sample_screen !! 0x1000.
Proof.
  apply (fb_init_frame 0xFD000000 2560 640 480 32 sample_screen 0x1000);
    lia.
Defined.

Lemma fb_setpx_col_sets_witness :
  px (fb_setpx_col 10 20 0x00FF00 sample_screen) 10 20 = Some 0x00FF00 /\
  (11 <> 10 \/ 20 <> 20 ->
   px (fb_setpx_col 10 20 0x00FF00 sample_screen) 11 20
     = px sample_screen 11 20) /\
  same_globals sample_screen (fb_setpx_col 10 20 0x00FF00 sample_screen).
Proof.
  apply (fb_setpx_col_sets 10 20 0x00FF00 sample_screen 11 20);
    [split | ..]; simpl; lia.
Defined.

Lemma fb_setpx_col_safe_witness :
  same_globals sample_screen (fb_setpx_col 480 0 0xFFFFFF sample_screen) /\
  (mem (fb_setpx_col 480 0 0xFFFFFF sample_screen) !! 0xFD12C000
     = mem sample_screen !! 0xFD12C000 \/
   exists cy cx,
     0 <= cy < g_height sample_screen /\ 0 <= cx < g_width sample_screen /\
     0xFD12C000 = px_addr sample_screen cy cx).
Proof.
  apply (fb_setpx_col_safe 480 0 0xFFFFFF sample_screen 0xFD12C000).
  split; simpl; lia.
Defined.

Lemma fb_drawrect_col_inside_witness :
  same_globals sample_screen
    (fb_drawrect_col 470 630 20 20 0xFFFFFF sample_screen) /\
  (mem (fb_drawrect_col 470 630 20 20 0xFFFFFF sample_screen) !! 0xFD12BFFC
     = mem sample_screen !! 0xFD12BFFC \/
   exists cy cx,
     470 <= cy < g_height sample_screen - 1 /\
     630 <= cx < g_width sample_screen - 1 /\
     0xFD12BFFC = px_addr sample_screen cy cx).
Proof.
  apply (fb_drawrect_col_inside 470 630 20 20 0xFFFFFF sample_screen
           0xFD12BFFC); [split; simpl; lia | lia..].
Defined.

Lemma fb_drawrect_col_pixels_witness :
  px (fb_drawrect_col 470 630 10 10 0xFFFFFF sample_screen) 479 639 =
    if decide (470 <= 479 < Z.min (470 + 10) (g_height sample_screen - 1) /\
               630 <= 639 < Z.min (630 + 10) (g_width sample_screen - 1))
    then Some 0xFFFFFF else px sample_screen 479 639.
Proof.
  apply (fb_drawrect_col_pixels 470 630 10 10 0xFFFFFF sample_screen 479 639);
    [split | ..]; simpl; lia.
Defined.

Lemma fb_drawrect_fast_agrees_witness :
  fb_drawrect_fast 5 100 100 100 0xFF0000 sample_screen
    = fb_drawrect_col 5 100 100 100 0xFF0000 sample_screen.
Proof.
  apply (fb_drawrect_fast_agrees 5 100 100 100 0xFF0000 sample_screen);
    simpl; lia.
Defined.

Lemma fb_drawrect_fast_fills_witness :
  px (fb_drawrect_fast 470 630 10 10 0xFF0000 sample_screen) 479 639 =
    (if decide (470 <= 479 < 470 + 10 /\ 630 <= 639 < 630 + 10)
     then Some 0xFF0000 else px sample_screen 479 639) /\
  same_globals sample_screen
    (fb_drawrect_fast 470 630 10 10 0xFF0000 sample_screen).
Proof.
  apply (fb_drawrect_fast_fills 470 630 10 10 0xFF0000 sample_screen 479 639);
    [split | ..]; simpl; lia.
Defined.

(** X19: a rectangle whose bottom row number [y + h] does not fit a
    uint32_t makes fb_drawrect_fast do nothing: the sum wraps to a value
    below [y] and the loop over the rows is not entered. *)
Theorem fb_drawrect_fast_wraps (y x h w col : Z) (s : fb_state) :
  0 <= y < 2 ^ 32 -> 0 <= h < 2 ^ 32 -> 2 ^ 32 <= y + h ->
  fb_drawrect_fast y x h w col s = s.
Proof.
  intros Hy Hh Hyh. unfold fb_drawrect_fast, for_u32 at 1.
  rewrite (u32_id y), (u32_id h) by done.
  replace (u32 (y + h)) with (y + h - 2 ^ 32).
  - by replace (Z.to_nat (y + h - 2 ^ 32 - y)) with 0%nat by lia.
  - unfold u32. apply Z.mod_unique with 1; lia.
Qed.

Lemma fb_drawrect_fast_wraps_witness :
  fb_drawrect_fast 5 0 0xFFFFFFFD 10 0xFF0000 sample_screen = sample_screen.
Proof.
  apply (fb_drawrect_fast_wraps 5 0 0xFFFFFFFD 10 0xFF0000 sample_screen);
    lia.
Defined.

End FramebufferProperties.

(** ** font.h *)

Module FontProperties.
Import FontH.

(* Masking with a single bit tests that bit. *)
Lemma land_pow2_testbit a k :
  0 <= k -> Z.land a (2 ^ k) <> 0 <-> Z.testbit a k = true.
Proof.
  intros Hk. split.
  - intros Hne. destruct (Z.testbit a k) eqn:Hb; [done|].
    exfalso. apply Hne. apply Z.bits_inj'. intros n Hn.
    rewrite Z.land_spec, Z.bits_0, Z.pow2_bits_eqb by done.
    destruct (Z.eqb_spec k n) as [->|_]; [by rewrite Hb | apply andb_false_r].
  - intros Hb Heq.
    assert (Z.testbit (Z.land a (2 ^ k)) k = true) as H
      by (rewrite Z.land_spec, Hb, Z.pow2_bits_true; done).
    rewrite Heq, Z.bits_0 in H. done.
Qed.

Lemma mask_shift x : 0 <= x <= 7 -> Z.shiftr 0x80 x = 2 ^ (7 - x).
Proof.
  intros Hx. rewrite Z.shiftr_div_pow2 by lia.
  change 0x80 with (2 ^ 7). replace 7 with ((7 - x) + x) at 1 by lia.
  rewrite Z.pow_add_r by lia. apply Z.div_mul. lia.
Qed.

(** X20: for a position inside a character's cell (rows up to [h],
    columns up to [w] and below 8), get_font_bit returns bit [7 - x] of
    the row's byte [font[c * h + y]]: a row is stored with its leftmost
    pixel in the most significant bit. *)
Theorem get_font_bit_testbit (f : Font) (c y x byte : Z) :
  0 <= c < 2 ^ 8 -> 0 <= y <= h f -> h f < 2 ^ 8 ->
  0 <= x <= w f -> x <= 7 ->
  font f !! Z.to_nat (c * h f + y) = Some byte ->
  get_font_bit f c y x = Bit (Z.testbit byte (7 - x)).
Proof.
  intros Hc Hy Hh Hx Hx7 Hbyte. unfold get_font_bit.
  rewrite (u8_id c), (u8_id y), (u8_id x) by lia.
  destruct (decide (y > h f)) as [?|_]; [lia|].
  destruct (decide (x > w f)) as [?|_]; [lia|].
  rewrite Hbyte. destruct (decide (x >= 32)) as [?|_]; [lia|].
  f_equal. rewrite mask_shift by lia.
  destruct (Z.testbit byte (7 - x)) eqn:Hb.
  - apply bool_decide_eq_true. apply land_pow2_testbit; [lia | done].
  - apply bool_decide_eq_false. rewrite land_pow2_testbit by lia.
    by rewrite Hb.
Qed.

Lemma u8_range z : 0 <= u8 z < 2 ^ 8.
Proof. unfold u8. apply Z.mod_pos_bound. lia. Qed.

(** X21: in a font at least 8 (and less than 32) pixels wide, every
    column from the ninth on is blank: for [x >= 8] get_font_bit returns
    false whatever the bitmap holds, the mask [0x80 >> x] being 0. *)
Theorem get_font_bit_blank_columns (f : Font) (c y x : Z) :
  8 <= w f < 32 -> 0 <= h f < 2 ^ 8 ->
  (256 * h f < Z.of_nat (length (font f))) ->
  8 <= x < 2 ^ 8 ->
  get_font_bit f c y x = Bit false.
Proof.
  intros Hw Hh Hlen Hx. unfold get_font_bit.
  rewrite (u8_id x) by lia.
  pose proof (u8_range c). pose proof (u8_range y).
  set (y' := if decide (u8 y > h f) then h f else u8 y).
  set (x' := if decide (x > w f) then w f else x).
  assert (0 <= y' <= h f) by (subst y'; case_decide; lia).
  assert (8 <= x' < 32) by (subst x'; case_decide; lia).
  destruct (font f !! Z.to_nat (u8 c * h f + y')) as [byte|] eqn:Hb.
  - destruct (decide (x' >= 32)) as [?|_]; [lia|].
    f_equal. apply bool_decide_eq_false. intros Hne. apply Hne.
    rewrite Z.shiftr_div_pow2 by lia.
    rewrite Z.div_small; [apply Z.land_0_r|].
    split; [lia|]. apply Z.lt_le_trans with (2 ^ 8); [lia|].
    apply Z.pow_le_mono_r; lia.
  - apply lookup_ge_None in Hb. nia.
Qed.

(** X22: a row number is clamped to [h], not to [h - 1]: asked for a row
    [y >= h] of a character [c < 255], get_font_bit answers with the
    first row of the next character. *)
Theorem get_font_bit_row_clamp (f : Font) (c y x : Z) :
  0 <= c < 255 -> 0 <= h f <= y -> y < 2 ^ 8 ->
  get_font_bit f c y x = get_font_bit f (c + 1) 0 x.
Proof.
  intros Hc Hy Hy'. unfold get_font_bit.
  rewrite (u8_id c), (u8_id (c + 1)), (u8_id y), (u8_id 0) by lia.
  replace (c * h f + (if decide (y > h f) then h f else y))
    with (c * h f + h f) by (case_decide; lia).
  replace ((c + 1) * h f + (if decide (0 > h f) then h f else 0))
    with (c * h f + h f) by (case_decide; lia).
  reflexivity.
Qed.

(** X23: with a bitmap of at least [256 * h + 1] bytes and a font less
    than 32 pixels wide, get_font_bit returns a bit for every character,
    row and column: it reads no byte outside the bitmap. *)
Theorem get_font_bit_in_bounds (f : Font) (c y x : Z) :
  0 <= w f < 32 -> 0 <= h f < 2 ^ 8 ->
  (256 * h f < Z.of_nat (length (font f))) ->
  exists b, get_font_bit f c y x = Bit b.
Proof.
  intros Hw Hh Hlen. unfold get_font_bit.
  pose proof (u8_range c). pose proof (u8_range y). pose proof (u8_range x).
  set (y' := if decide (u8 y > h f) then h f else u8 y).
  set (x' := if decide (u8 x > w f) then w f else u8 x).
  assert (0 <= y' <= h f) by (subst y'; case_decide; lia).
  assert (0 <= x' < 32) by (subst x'; case_decide; lia).
  destruct (font f !! Z.to_nat (u8 c * h f + y')) as [byte|] eqn:Hb.
  - destruct (decide (x' >= 32)) as [?|_]; [lia|]. eauto.
  - apply lookup_ge_None in Hb. nia.
Qed.

(** X24: with a bitmap of exactly [256 * h] bytes, [h] rows for each of
    the 256 characters, a row [y >= h] of the last character makes
    get_font_bit read the byte after the end of the bitmap. *)
Theorem get_font_bit_past_end (f : Font) (y x : Z) :
  Z.of_nat (length (font f)) = 256 * h f ->
  0 <= h f <= y -> y < 2 ^ 8 ->
  get_font_bit f 255 y x = OutOfBounds.
Proof.
  intros Hlen Hy Hy'. unfold get_font_bit.
  rewrite (u8_id 255), (u8_id y) by lia.
  replace (255 * h f + (if decide (y > h f) then h f else y))
    with (256 * h f) by (case_decide; lia).
  rewrite (proj2 (lookup_ge_None _ _)); [done | lia].
Qed.

Lemma get_font_bit_testbit_witness :
  get_font_bit sample_font 65 0 0 = Bit (Z.testbit 0x80 (7 - 0)).
Proof.
  apply (get_font_bit_testbit sample_font 65 0 0 0x80);
    [simpl; lia.. | reflexivity].
Defined.

Lemma get_font_bit_blank_columns_witness :
  get_font_bit sample_font_padded 65 1 8 = Bit false.
Proof.
  apply (get_font_bit_blank_columns sample_font_padded 65 1 8);
    [simpl; lia | simpl; lia | vm_compute; reflexivity | lia].
Defined.

Lemma get_font_bit_row_clamp_witness :
  get_font_bit sample_font 65 2 0 = get_font_bit sample_font (65 + 1) 0 0.
Proof.
  apply (get_font_bit_row_clamp sample_font 65 2 0); simpl; lia.
Defined.

Lemma get_font_bit_in_bounds_witness :
  exists b, get_font_bit sample_font_padded 255 2 0 = Bit b.
Proof.
  apply (get_font_bit_in_bounds sample_font_padded 255 2 0);
    [simpl; lia | simpl; lia | vm_compute; reflexivity].
Defined.

Lemma get_font_bit_past_end_witness :
  get_font_bit sample_font 255 2 0 = OutOfBounds.
Proof.
  apply (get_font_bit_past_end sample_font 2 0); [reflexivity | simpl; lia..].
Defined.

End FontProperties.

(** ** kernel.c *)

Module KernelProperties.
Import KernelC.

(* One field below 10: two stores, and no call of itoa. *)
Lemma PAD_ZEROS_digit itoa n p str :
  0 <= n < 10 -> (p + 1 < length str)%nat ->
  PAD_ZEROS itoa n p str
    = Some (<[(p + 1)%nat := n + char_0]> (<[p := char_0]> str)).
Proof.
  intros Hn Hp. unfold PAD_ZEROS, poke.
  rewrite decide_True by lia. rewrite decide_True by lia. simpl.
  rewrite decide_True by (rewrite length_insert; lia).
  unfold char_0 in *. by rewrite !u8_id by lia.
Qed.

(** X25: when the day, month, year, hour, minute and second are all
    below 10, format_date writes each as '0' followed by its digit at
    positions 0, 3, 6, 11, 14 and 17 of the 20-byte array, leaves every
    other byte (the separators and the terminating zero) as it was, and
    does not call itoa. *)
Theorem format_date_single_digits
    (itoa : nat -> Z -> list Z -> option (list Z))
    (str : list Z) (now : DateTime) :
  length str = 20%nat ->
  0 <= date_d (date now) < 10 -> 0 <= date_m (date now) < 10 ->
  0 <= date_y (date now) < 10 ->
  0 <= time_h (time now) < 10 -> 0 <= time_m (time now) < 10 ->
  0 <= time_s (time now) < 10 ->
  exists out,
    format_date itoa str now = Some out /\
    length out = 20%nat /\
    (out !! 0%nat, out !! 1%nat)
      = (Some char_0, Some (char_0 + date_d (date now))) /\
    (out !! 3%nat, out !! 4%nat)
      = (Some char_0, Some (char_0 + date_m (date now))) /\
    (out !! 6%nat, out !! 7%nat)
      = (Some char_0, Some (char_0 + date_y (date now))) /\
    (out !! 11%nat, out !! 12%nat)
      = (Some char_0, Some (char_0 + time_h (time now))) /\
    (out !! 14%nat, out !! 15%nat)
      = (Some char_0, Some (char_0 + time_m (time now))) /\
    (out !! 17%nat, out !! 18%nat)
      = (Some char_0, Some (char_0 + time_s (time now))) /\
    Forall (fun k : nat => out !! k = str !! k) [2; 5; 8; 9; 10; 13; 16; 19]%nat.
Proof.
  intros Hlen Hd Hm Hy Hh Hmi Hs.
  unfold format_date.
  do 5 (rewrite PAD_ZEROS_digit by (rewrite ?length_insert; lia);
        cbn [mbind option_bind]).
  rewrite PAD_ZEROS_digit by (rewrite ?length_insert; lia).
  do 20 (destruct str as [|? str]; [done|]). destruct str; [|done].
  eexists. split; [reflexivity|].
  repeat split; try (cbn; f_equal; f_equal; lia).
  repeat constructor.
Qed.

Lemma format_date_single_digits_witness :
  exists out,
    format_date sample_itoa date_fmt
      {| date := {| date_d := 7; date_m := 3; date_y := 9; date_c := 20 |};
         time := {| time_h := 4; time_m := 5; time_s := 6 |} |} = Some out /\
    length out = 20%nat /\
    (out !! 0%nat, out !! 1%nat) = (Some char_0, Some (char_0 + 7)) /\
    (out !! 3%nat, out !! 4%nat) = (Some char_0, Some (char_0 + 3)) /\
    (out !! 6%nat, out !! 7%nat) = (Some char_0, Some (char_0 + 9)) /\
    (out !! 11%nat, out !! 12%nat) = (Some char_0, Some (char_0 + 4)) /\
    (out !! 14%nat, out !! 15%nat) = (Some char_0, Some (char_0 + 5)) /\
    (out !! 17%nat, out !! 18%nat) = (Some char_0, Some (char_0 + 6)) /\
    Forall (fun k : nat => out !! k = date_fmt !! k)
      [2; 5; 8; 9; 10; 13; 16; 19]%nat.
Proof.
  apply (format_date_single_digits sample_itoa date_fmt
           {| date := {| date_d := 7; date_m := 3; date_y := 9; date_c := 20 |};
              time := {| time_h := 4; time_m := 5; time_s := 6 |} |});
    [reflexivity | simpl; lia..].
Defined.

End KernelProperties.

(** ** More on register_isr and idt_init *)

(** X1: register_isr never stores outside the table: for any index and
    handler, on a table of 256 entries, either the index (as a uint16_t)
    is below 256 and the call is one store at that index, or it is not
    and the call halts in panic_line with nothing changed. *)
Theorem register_isr_memory_safe (idx func : Z) (s : machine) :
  wf s ->
  (u16 idx < IDT_SZ /\
   register_isr idx func s =
     Done tt (with_idt (<[Z.to_nat (u16 idx) := gate func]> (idt s)) s)
          [EIdtStore (u16 idx) (gate func)]) \/
  (IDT_SZ <= u16 idx /\
   register_isr idx func s =
     Halted "Idx out of bounds when registering ISR." s []).
Proof.
  intros Hwf.
  assert (0 <= u16 idx < 2 ^ 16) as Hr by (apply Z.mod_pos_bound; lia).
  assert (register_isr idx func s = register_isr (u16 idx) func s) as ->
    by (unfold register_isr, u16; by rewrite Z.mod_mod).
  destruct (decide (u16 idx < IDT_SZ)) as [Hlt|Hge].
  - left. split; [done|]. apply register_isr_in_range; [done | lia].
  - right. split; [lia|]. apply register_isr_past_end. lia.
Qed.

Lemma register_isr_memory_safe_witness :
  (u16 65569 < IDT_SZ /\
   register_isr 65569 0x00101410 boot =
     Done tt
       (with_idt (<[Z.to_nat (u16 65569) := gate 0x00101410]> (idt boot)) boot)
       [EIdtStore (u16 65569) (gate 0x00101410)]) \/
  (IDT_SZ <= u16 65569 /\
   register_isr 65569 0x00101410 boot =
     Halted "Idx out of bounds when registering ISR." boot []).
Proof.
  apply (register_isr_memory_safe 65569 0x00101410 boot). reflexivity.
Defined.

(** X2: a vector registered twice keeps the handler registered last:
    two calls for the same index leave the state that the second call
    alone would leave. *)
Theorem register_isr_overwrite (i a b : Z) (s : machine) :
  wf s -> 0 <= i < 256 ->
  exists s',
    (register_isr i a ;; register_isr i b) s =
      Done tt s' [EIdtStore i (gate a); EIdtStore i (gate b)] /\
    register_isr i b s = Done tt s' [EIdtStore i (gate b)].
Proof.
  intros Hwf Hi. eexists. split; [|by apply register_isr_in_range].
  erewrite bind_done by (by apply register_isr_in_range).
  rewrite register_isr_step by (rewrite ?length_insert; done).
  simpl. by rewrite list_insert_insert_eq.
Qed.

Lemma register_isr_overwrite_witness :
  exists s',
    (register_isr 33 0x00101400 ;; register_isr 33 0x00101410) boot =
      Done tt s' [EIdtStore 33 (gate 0x00101400);
                  EIdtStore 33 (gate 0x00101410)] /\
    register_isr 33 0x00101410 boot =
      Done tt s' [EIdtStore 33 (gate 0x00101410)].
Proof.
  apply (register_isr_overwrite 33 0x00101400 0x00101410 boot);
    [reflexivity | lia].
Defined.

(** X3: registrations of different vectors do not disturb each other:
    made in either order, two calls for distinct valid indices leave the
    same state. *)
Theorem register_isr_commute (i j a b : Z) (s : machine) :
  wf s -> 0 <= i < 256 -> 0 <= j < 256 -> i <> j ->
  exists s',
    (register_isr i a ;; register_isr j b) s =
      Done tt s' [EIdtStore i (gate a); EIdtStore j (gate b)] /\
    (register_isr j b ;; register_isr i a) s =
      Done tt s' [EIdtStore j (gate b); EIdtStore i (gate a)].
Proof.
  intros Hwf Hi Hj Hne. eexists. split.
  - erewrite bind_done by (by apply register_isr_in_range).
    rewrite register_isr_step by (rewrite ?length_insert; done).
    reflexivity.
  - erewrite bind_done by (by apply register_isr_in_range).
    rewrite register_isr_step by (rewrite ?length_insert; done).
    simpl. by rewrite list_insert_insert_ne by lia.
Qed.

Lemma register_isr_commute_witness :
  exists s',
    (register_isr 32 0x00101400 ;; register_isr 33 0x00101410) boot =
      Done tt s' [EIdtStore 32 (gate 0x00101400);
                  EIdtStore 33 (gate 0x00101410)] /\
    (register_isr 33 0x00101410 ;; register_isr 32 0x00101400) boot =
      Done tt s' [EIdtStore 33 (gate 0x00101410);
                  EIdtStore 32 (gate 0x00101400)].
Proof.
  apply (register_isr_commute 32 33 0x00101400 0x00101410 boot);
    [reflexivity | lia..].
Defined.

(** X4: whatever value is passed as the handler, every field of the
    descriptor register_isr builds fits its width in the packed record
    (16, 16, 8, 8 and 16 bits), and its two offset halves put back
    together are the value modulo 2^32. *)
Theorem gate_encoding (func : Z) :
  0 <= offset_l (gate func) < 2 ^ 16 /\
  0 <= selector (gate func) < 2 ^ 16 /\
  0 <= zero (gate func) < 2 ^ 8 /\
  0 <= type (gate func) < 2 ^ 8 /\
  0 <= offset_h (gate func) < 2 ^ 16 /\
  offset_h (gate func) * 2 ^ 16 + offset_l (gate func) = u32 func.
Proof.
  rewrite gate_decode. unfold gate; simpl.
  repeat split; try done; try lia; apply Z.mod_pos_bound; lia.
Qed.

(** X5: two handler values get the same descriptor only when they are
    the same 32-bit address. *)
Theorem gate_injective (a b : Z) : gate a = gate b -> u32 a = u32 b.
Proof.
  intros H. rewrite <- (gate_decode a), <- (gate_decode b). by rewrite H.
Qed.

Lemma gate_injective_witness : u32 (2 ^ 32 + 0x00101410) = u32 0x00101410.
Proof.
  apply (gate_injective (2 ^ 32 + 0x00101410) 0x00101410). reflexivity.
Defined.

Section IdtInitMore.

Variable idt_addr : Z.
Variable exc : Z -> Z.
Variables irq_pit irq_kb irq_default_master irq_default_slave : Z.

Local Abbreviation idt_init'' :=
  (idt_init idt_addr exc irq_pit irq_kb irq_default_master irq_default_slave).

(** X6: idt_init hands the CPU a descriptor of the whole table: the
    descriptor loaded by lidt has the table's address as base and the
    table's size in bytes minus one (256 * 8 - 1 = 2047) as limit, the
    table still has its 256 entries, and interrupts are enabled. *)
Theorem idt_init_descriptor_loaded (s : machine) :
  wf s ->
  exists s' t,
    idt_init'' s = Done tt s' t /\
    idtr s' = Some {| limit := 2047; base := idt_addr |} /\
    descriptor s' = {| limit := 2047; base := idt_addr |} /\
    Z.of_nat (length (idt s')) * sizeof_idt_entry - 1 = 2047 /\
    wf s' /\
    iflag s' = true.
Proof.
  intros Hwf. eexists _, _. split; [by apply idt_init_run|].
  assert (wf (idt_init_final idt_addr exc irq_pit irq_kb irq_default_master
                irq_default_slave s)) as Hwf'
    by (unfold wf, idt_init_final; cbn [idt]; by rewrite length_assign).
  repeat split; try done.
  unfold wf, IDT_SZ in Hwf'. rewrite Hwf'. reflexivity.
Qed.

(** X7: idt_init can be run again: started in the state a first run
    returned in, it performs the same actions and returns in that same
    state. *)
Theorem idt_init_idempotent (s : machine) :
  wf s ->
  exists s' t,
    idt_init'' s = Done tt s' t /\ idt_init'' s' = Done tt s' t.
Proof.
  intros Hwf. eexists _, _. split; [by apply idt_init_run|].
  assert (wf (idt_init_final idt_addr exc irq_pit irq_kb irq_default_master
                irq_default_slave s)) as Hwf'
    by (unfold wf, idt_init_final; cbn [idt]; by rewrite length_assign).
  rewrite idt_init_run by done. f_equal.
  unfold idt_init_final. cbn [idt]. f_equal.
  apply list_eq. intros n.
  destruct (decide (n < length (idt s))%nat) as [Hn|Hn].
  - rewrite (lookup_foldl_assign _ (foldl assign _ _)) by (by rewrite length_assign).
    rewrite !lookup_foldl_assign by done.
    by destruct (last_assignment _ n).
  - rewrite !(proj2 (lookup_ge_None _ _)); [done | rewrite ?length_assign; lia..].
Qed.

End IdtInitMore.

Lemma idt_init_descriptor_loaded_witness :
  exists s' t,
    idt_init sample_idt_addr sample_exc sample_irq_pit sample_irq_kb
      sample_irq_default_master sample_irq_default_slave boot
      = Done tt s' t /\
    idtr s' = Some {| limit := 2047; base := sample_idt_addr |} /\
    descriptor s' = {| limit := 2047; base := sample_idt_addr |} /\
    Z.of_nat (length (idt s')) * sizeof_idt_entry - 1 = 2047 /\
    wf s' /\
    iflag s' = true.
Proof.
  apply (idt_init_descriptor_loaded sample_idt_addr sample_exc sample_irq_pit
           sample_irq_kb sample_irq_default_master sample_irq_default_slave
           boot).
  reflexivity.
Defined.

Lemma idt_init_idempotent_witness :
  exists s' t,
    idt_init sample_idt_addr sample_exc sample_irq_pit sample_irq_kb
      sample_irq_default_master sample_irq_default_slave boot
      = Done tt s' t /\
    idt_init sample_idt_addr sample_exc sample_irq_pit sample_irq_kb
      sample_irq_default_master sample_irq_default_slave s'
      = Done tt s' t.
Proof.
  apply (idt_init_idempotent sample_idt_addr sample_exc sample_irq_pit
           sample_irq_kb sample_irq_default_master sample_irq_default_slave
           boot).
  reflexivity.
Defined.
